(** * tsclient: a browser client for a TypeScript compilation service

    Shallow embedding of [src/tsclient.ts] (class [Compiler] and the status
    helpers above it) together with the properties of its fan-out/join
    aggregation, its response handling and its artifact injection.

    Conventions of the embedding:
    - JavaScript strings are [string]s; indices and lengths are [Z], since
      [lastIndexOf] answers [-1] and the code computes [length - 3].
    - A property that is absent from a parsed JSON object reads [undefined];
      such a property is an [option] whose [None] is [undefined].
    - The page is a record of the few places the code touches; the code's
      mutations of it are functions on that record.  Code that can throw
      runs in a small state-and-exception monad in which the mutations made
      before a throw are kept, as they are in JavaScript.
    - The browser's HTML parser is not part of the program: it is the
      interface [HostAPI].
    - [readScripts] returns before any of its requests completes; what
      completes afterwards is a list of events applied to the state it
      left.  The state keeps the steps taken, so that their order can be
      spoken of. *)

From Stdlib Require Import String Ascii List ZArith Lia Bool Permutation.
From Stdlib Require Import Decimal DecimalString DecimalNat.
Import ListNotations.
Local Open Scope string_scope.
Local Open Scope list_scope.

(** ** JavaScript string primitives used by the client *)

Module JS.

(** [s.length] *)
Definition length (s : string) : Z := Z.of_nat (String.length s).

(** The characters of [s] from position [k] on. *)
Fixpoint drop (k : nat) (s : string) : string :=
  match k, s with
  | O, _ => s
  | S k', String _ s' => drop k' s'
  | S _, EmptyString => EmptyString
  end.

(** Left-to-right scan behind [lastIndexOf]: [i] is the index of the head
    of [s] in the whole string, [acc] the last match seen so far. *)
Fixpoint lastIndexOf_from (pat s : string) (i acc : Z) : Z :=
  let acc' := if String.prefix pat s then i else acc in
  match s with
  | EmptyString => acc'
  | String _ s' => lastIndexOf_from pat s' (i + 1) acc'
  end.

(** [s.lastIndexOf(pat)]: the greatest index at which [pat] occurs in
    [s], and [-1] when it does not occur. *)
Definition lastIndexOf (s pat : string) : Z := lastIndexOf_from pat s 0 (-1).

(** [s.substring(start)]: a negative [start] counts as [0], one beyond
    the end gives the empty string. *)
Definition substring (s : string) (start : Z) : string :=
  drop (Z.to_nat start) s.

(** The text a number takes inside a template literal. *)
Definition number_text (k : nat) : string :=
  NilEmpty.string_of_uint (Nat.to_uint k).

(** The text an optional string takes where a string is expected. *)
Definition to_text (v : option string) : string :=
  match v with
  | Some s => s
  | None => "undefined"
  end.

(** Truthiness of an optional boolean property. *)
Definition truthy (v : option bool) : bool :=
  match v with
  | Some b => b
  | None => false
  end.

End JS.

(** ** Data model (the interfaces at the top of the source) *)

(** The contents of a single TypeScript script. *)
Record TSFile := { name : string; content : string }.

(** The output of a compilation, as read from a parsed response. *)
Record TSOutput := {
  success : option bool;
  result : option string;
  files : option (list TSFile)
}.

(** A program to be compiled. *)
Record TSProgram := { program_files : list TSFile }.

(** A fatal error of the service, as read from a parsed response. *)
Record TSError := { error : option bool; reason : option string }.

(** The value bound by [let output: TSOutput & TSError]. *)
Definition Response : Type := TSOutput * TSError.

(** The constructor parameters of [Compiler]. *)
Record Compiler := {
  server : string;
  tsScriptType : string;
  tsconfigType : string;
  outputJsType : string;
  outputOtherType : string
}.

(** ** The page *)

(** The nodes the client creates or moves. *)
Inductive Node :=
| NotePre (class_attr : option string) (innerText : string)
| ParsedPre (markup : string)
| Div (style : string) (child : Node)
| Script (type : string) (innerHTML : string).

(** The element with id [status]. *)
Record StatusDom := { status_text : string; status_class : string }.

Record Document := {
  status : option StatusDom;             (* getElementById("status") *)
  spinner : option string;               (* class of #spinner, when present *)
  status_container : option (list Node); (* children of #status-container *)
  body : list Node;                      (* children of document.body *)
  window_status : string                 (* the global [status] read by hideStatus *)
}.

(** A [script] element as the reader sees it: the [src] attribute, the
    resolved [src] property (empty when the attribute is absent) and the
    inline text. *)
Record HTMLScriptElement := {
  getAttribute_src : option string;
  src : string;
  script_innerHTML : string
}.

(** What the browser contributes to [showOutput]:
    [createContextualFragment(markup).querySelector("pre")]. *)
Class HostAPI := { querySelector_pre : string -> option Node }.

(** Assignments to one part of the page. *)
Definition with_status (d : Document) (s : option StatusDom) : Document :=
  {| status := s; spinner := spinner d; status_container := status_container d;
     body := body d; window_status := window_status d |}.

Definition with_spinner (d : Document) (s : option string) : Document :=
  {| status := status d; spinner := s; status_container := status_container d;
     body := body d; window_status := window_status d |}.

Definition with_container (d : Document) (c : option (list Node)) : Document :=
  {| status := status d; spinner := spinner d; status_container := c;
     body := body d; window_status := window_status d |}.

Definition with_body (d : Document) (b : list Node) : Document :=
  {| status := status d; spinner := spinner d; status_container := status_container d;
     body := b; window_status := window_status d |}.

(** Hides the status spinner. *)
Definition hideSpinner (d : Document) : Document :=
  match spinner d with
  | Some _ => with_spinner d (Some "hidden")
  | None => d
  end.

(** Sets the status text. *)
Definition setStatus (text : string) (d : Document) : Document :=
  match status d with
  | Some _ => with_status d (Some {| status_text := text; status_class := "header" |})
  | None => d
  end.

(** Adds an element in the status container. *)
Definition addNote (note : string) (is_error : bool) (d : Document) : Document :=
  match status_container d with
  | Some children =>
      let noteElem := NotePre (if is_error then Some "error" else None) note in
      with_container d (Some (children ++ [noteElem]))
  | None => d
  end.

(** Hides the status text. *)
Definition hideStatus (d : Document) : Document :=
  match status d with
  | Some _ =>
      with_status d (Some {| status_text := window_status d;
                             status_class := "header hidden" |})
  | None => d
  end.

(** Sets the status text, and highlights it red. *)
Definition setError (text : string) (d : Document) : Document :=
  match status d with
  | Some _ => with_status d (Some {| status_text := text; status_class := "header error" |})
  | None => d
  end.

(** ** Statements that may throw *)

(** How a statement ends. *)
Inductive Completion (A : Type) :=
| Normal (a : A)
| Thrown (e : string).
Arguments Normal {A} a.
Arguments Thrown {A} e.

(** A statement that works on the page: what the page has become stays
    so when the statement throws. *)
Definition DOM (A : Type) : Type := Document -> Completion A * Document.

Definition ret {A} (a : A) : DOM A := fun d => (Normal a, d).

Definition bind {A B} (c : DOM A) (k : A -> DOM B) : DOM B :=
  fun d =>
    match c d with
    | (Normal a, d') => k a d'
    | (Thrown e, d') => (Thrown e, d')
    end.

Definition throw {A} (e : string) : DOM A := fun d => (Thrown e, d).

(** A statement that only mutates the page. *)
Definition effect (f : Document -> Document) : DOM unit :=
  fun d => (Normal tt, f d).

(** [try { c } catch (e) { h }] *)
Definition try_catch (c : DOM unit) (h : DOM unit) : DOM unit :=
  fun d =>
    match c d with
    | (Normal a, d') => (Normal a, d')
    | (Thrown _, d') => h d'
    end.

Declare Scope dom_scope.
Delimit Scope dom_scope with dom.
Notation "c1 ;; c2" := (bind c1 (fun _ => c2))
  (at level 61, right associativity) : dom_scope.

(** [for (let x of xs) body(x)] *)
Fixpoint for_of {A} (xs : list A) (body_of : A -> DOM unit) : DOM unit :=
  match xs with
  | [] => ret tt
  | x :: rest => bind (body_of x) (fun _ => for_of rest body_of)
  end.

(** The page after a statement, whatever its completion. *)
Definition exec {A} (c : DOM A) (d : Document) : Document := snd (c d).

(** ** Class [Compiler]: response handling and artifact injection *)

Section CompilerMethods.

Context `{HostAPI}.
Variable this : Compiler.

(** The test of [addScript]:
    [file.name.lastIndexOf(".js") === file.name.length - 3]. *)
Definition js_test (file : TSFile) : bool :=
  (JS.lastIndexOf (name file) ".js" =? JS.length (name file) - 3)%Z.

(** Given a compiled TSFile, adds it to the DOM to execute it. *)
Definition addScript (file : TSFile) (d : Document) : Document :=
  let type := if js_test file then outputJsType this else outputOtherType this in
  with_body d (body d ++ [Script type (content file)]).

(** [container.appendChild(div)], or [document.body.insertBefore(div,
    document.body.firstChild)] when the page has no status container. *)
Definition place_div (div : Node) (d : Document) : Document :=
  match status_container d with
  | Some children => with_container d (Some (children ++ [div]))
  | None => with_body d (div :: body d)
  end.

(** Given the [output] of a compilation, gives information about its
    result to the user and, if applicable, adds all scripts to the DOM to
    execute them.  A markup without [pre] element makes [inner] null and
    [div.appendChild(inner)] throw; an absent [files] makes the final
    loop throw. *)
Definition showOutput (output : TSOutput) : DOM unit :=
  match querySelector_pre (JS.to_text (result output)) with
  | None => throw "TypeError"
  | Some inner =>
      let div := Div "color: #FFF; background-color: #000;" inner in
      (effect (place_div div) ;;
       if negb (JS.truthy (success output)) then
         effect (setError "Compilation failed.") ;;
         effect hideSpinner
       else
         effect hideStatus ;;
         effect hideSpinner ;;
         match files output with
         | Some fs => for_of fs (fun file => effect (addScript file))
         | None => throw "TypeError"
         end)%dom
  end.

(** The body of the [try] block of [xhr.onload] in [compile]; [parsed]
    is the outcome of [JSON.parse(xhr.responseText)], [None] when it
    throws. *)
Definition onload_try (parsed : option Response) : DOM unit :=
  match parsed with
  | None => throw "SyntaxError"
  | Some output =>
      ((if JS.truthy (error (snd output)) then
          effect (setError (String.append "A server error occurred: <br/> "
                                          (JS.to_text (reason (snd output))))) ;;
          effect hideSpinner
        else ret tt) ;;
       showOutput (fst output))%dom
  end.

(** [xhr.onload] of [compile]. *)
Definition compile_onload (parsed : option Response) : DOM unit :=
  try_catch (onload_try parsed)
            (effect (setError "A server error occurred.") ;;
             effect hideSpinner)%dom.

(** [xhr.onerror] of [compile]. *)
Definition compile_onerror : DOM unit :=
  (effect (setError "A server error occurred.") ;; effect hideSpinner)%dom.

End CompilerMethods.

(** ** Class [Compiler]: reading the scripts of the page *)

(** The object [waitingXHRsRef]. *)
Record WaitingXHRs := { n : Z; called : bool }.

(** A request created by [readScript]: where it goes, the [name] its
    [onload] closure captured, and whether [send] was called on it. *)
Record XMLHttpRequest := { url : string; onload_name : string; sent : bool }.

(** What a request ends with: the [load] event (whatever the HTTP status),
    or the [error] event of a failure of the transport. *)
Inductive FetchResult :=
| Loaded (http_status : Z) (responseText : string)
| Failed.

(** The steps of the aggregation that the ordering properties speak of. *)
Inductive Event :=
| EvPush (file_name : string)
| EvIncrement
| EvQueue (file_name : string)
| EvSend (index : nat)
| EvDecrement
| EvCallback.

(** The variables of one call of [readScripts], the invocations of its
    [callback] (each with the files the shared array held at that moment),
    the steps taken so far, oldest first, and the page. *)
Record Reader := {
  waitingXHRsRef : WaitingXHRs;
  xhrs : list XMLHttpRequest;
  read_files : list TSFile;
  callbacks : list TSProgram;
  trace : list Event;
  page : Document
}.

(** Assignments to one variable of the reader; each records its step. *)
Definition with_ref (st : Reader) (r : WaitingXHRs) (e : Event) : Reader :=
  {| waitingXHRsRef := r; xhrs := xhrs st; read_files := read_files st;
     callbacks := callbacks st; trace := trace st ++ [e]; page := page st |}.

Definition with_xhrs (st : Reader) (l : list XMLHttpRequest) (e : Event) : Reader :=
  {| waitingXHRsRef := waitingXHRsRef st; xhrs := l; read_files := read_files st;
     callbacks := callbacks st; trace := trace st ++ [e]; page := page st |}.

(** [files.push(file)] *)
Definition push_file (file : TSFile) (st : Reader) : Reader :=
  {| waitingXHRsRef := waitingXHRsRef st; xhrs := xhrs st;
     read_files := read_files st ++ [file];
     callbacks := callbacks st; trace := trace st ++ [EvPush (name file)];
     page := page st |}.

(** [waitingXHRsRef.n++] *)
Definition increment (st : Reader) : Reader :=
  with_ref st {| n := n (waitingXHRsRef st) + 1; called := called (waitingXHRsRef st) |}
           EvIncrement.

(** [waitingXHRsRef.n--] *)
Definition decrement (st : Reader) : Reader :=
  with_ref st {| n := n (waitingXHRsRef st) - 1; called := called (waitingXHRsRef st) |}
           EvDecrement.

(** [callback({files: files})] *)
Definition invoke_callback (st : Reader) : Reader :=
  {| waitingXHRsRef := waitingXHRsRef st; xhrs := xhrs st; read_files := read_files st;
     callbacks := callbacks st ++ [{| program_files := read_files st |}];
     trace := trace st ++ [EvCallback]; page := page st |}.

(** [if (waitingXHRsRef.n === 0 && !waitingXHRsRef.called) callback(...)],
    the statement that ends both [xhr.onload] and [readScripts]. *)
Definition completion_check (st : Reader) : Reader :=
  if (n (waitingXHRsRef st) =? 0)%Z && negb (called (waitingXHRsRef st))
  then invoke_callback st
  else st.

(** [xhr.onload] of a request of [readScript], for the captured [name]. *)
Definition xhr_onload (file_name responseText : string) (st : Reader) : Reader :=
  completion_check
    (decrement (push_file {| name := file_name; content := responseText |} st)).

(** Fills in [files] from the given [script] and file [name]; a script
    with a [src] attribute queues a request instead. *)
Definition readScript (file_name : string) (script : HTMLScriptElement)
    (st : Reader) : Reader :=
  match getAttribute_src script with
  | None => push_file {| name := file_name; content := script_innerHTML script |} st
  | Some location =>
      let st' := increment st in
      with_xhrs st'
        (xhrs st' ++ [{| url := location; onload_name := file_name; sent := false |}])
        (EvQueue file_name)
  end.

(** The name [readScripts] computes for the script at [scriptNumber]. *)
Definition script_name (scriptNumber : nat) (script : HTMLScriptElement) : string :=
  let name0 := src script in
  let name1 := JS.substring name0 (JS.lastIndexOf name0 "/") in
  if String.eqb name1 ""
  then String.append "script-" (String.append (JS.number_text scriptNumber) ".ts")
  else name1.

(** The first loop of [readScripts]. *)
Fixpoint read_loop (scripts : list HTMLScriptElement) (scriptNumber : nat)
    (st : Reader) : Reader :=
  match scripts with
  | [] => st
  | script :: rest =>
      read_loop rest (S scriptNumber)
                (readScript (script_name scriptNumber script) script st)
  end.

(** A request on which [send] was called. *)
Definition as_sent (x : XMLHttpRequest) : XMLHttpRequest :=
  {| url := url x; onload_name := onload_name x; sent := true |}.

(** [xhr.send()] on the request at [index]. *)
Fixpoint mark_sent (index : nat) (l : list XMLHttpRequest) : list XMLHttpRequest :=
  match l, index with
  | [], _ => []
  | x :: rest, O => as_sent x :: rest
  | x :: rest, S i => x :: mark_sent i rest
  end.

(** One turn of the dispatch loop. *)
Definition send (index : nat) (st : Reader) : Reader :=
  with_xhrs st (mark_sent index (xhrs st)) (EvSend index).

(** [for (let xhr of xhrs) xhr.send()] *)
Fixpoint send_loop (pending : list XMLHttpRequest) (index : nat) (st : Reader) : Reader :=
  match pending with
  | [] => st
  | _ :: rest => send_loop rest (S index) (send index st)
  end.

(** The variables as [readScripts] declares them. *)
Definition initial_reader (d : Document) : Reader :=
  {| waitingXHRsRef := {| n := 0; called := false |}; xhrs := []; read_files := [];
     callbacks := []; trace := []; page := d |}.

(** [readScripts] up to the end of enumeration: the note about a missing
    configuration, the loop over the scripts, the configuration script. *)
Definition enumerate (scripts : list HTMLScriptElement)
    (config : option HTMLScriptElement) (d : Document) : Reader :=
  let d' :=
    match config with
    | None =>
        addNote "TypeScript config not found... compilation is very unlikely to succeed."
                true d
    | Some _ => d
    end in
  let st := read_loop scripts 0 (initial_reader d') in
  match config with
  | Some c => readScript "tsconfig.json" c st
  | None => st
  end.

(** The dispatch of the queued requests. *)
Definition dispatch (st : Reader) : Reader := send_loop (xhrs st) 0 st.

(** Reads all scripts from the document: [scripts] and [config] are the
    answers of the two selector queries.  The value is the state in which
    [readScripts] returns; the requests complete later, one event at a
    time. *)
Definition readScripts (scripts : list HTMLScriptElement)
    (config : option HTMLScriptElement) (d : Document) : Reader :=
  completion_check (dispatch (enumerate scripts config d)).

(** The browser delivers the end of the request at [index]: only a request
    that was sent has one, and only [load] has a handler. *)
Definition deliver (index : nat) (r : FetchResult) (st : Reader) : Reader :=
  match nth_error (xhrs st) index with
  | Some x =>
      if sent x then
        match r with
        | Loaded _ responseText => xhr_onload (onload_name x) responseText st
        | Failed => st
        end
      else st
  | None => st
  end.

(** The events after [readScripts] returned, in the order they arrive. *)
Fixpoint run (events : list (nat * FetchResult)) (st : Reader) : Reader :=
  match events with
  | [] => st
  | (index, r) :: rest => run rest (deliver index r st)
  end.

(** How the request that [compile] makes to the server ends. *)
Inductive CompileEnd :=
| StillPending
| NetworkError
| Answered (parsed : option Response).

(** [compile], from the call to the end of its request.  The callback it
    gives to [readScripts] sends the program, so the request exists once
    the callback has run; [fetches] are the ends of the fragment requests in
    the order they arrive, [answer] is the end of the request to the
    server.  The value is the page at the end. *)
Definition compile `{HostAPI} (this : Compiler)
    (scripts : list HTMLScriptElement) (config : option HTMLScriptElement)
    (fetches : list (nat * FetchResult)) (answer : CompileEnd)
    (d : Document) : Document :=
  let st := run fetches (readScripts scripts config d) in
  match callbacks st, answer with
  | _ :: _, Answered parsed => exec (compile_onload this parsed) (page st)
  | _ :: _, NetworkError => exec compile_onerror (page st)
  | _, _ => page st
  end.

(** The enumeration in the order [readScripts] visits it. *)
Definition enumeration (scripts : list HTMLScriptElement)
    (config : option HTMLScriptElement) : list HTMLScriptElement :=
  scripts ++ match config with Some c => [c] | None => [] end.

(** The test of [readScript]: the script has a [src] attribute. *)
Definition is_remote (script : HTMLScriptElement) : bool :=
  match getAttribute_src script with Some _ => true | None => false end.

(** R: the number of remote fragments of an enumeration. *)
Definition remote_count (l : list HTMLScriptElement) : nat :=
  List.length (filter is_remote l).

(** L: the number of inline fragments of an enumeration. *)
Definition inline_count (l : list HTMLScriptElement) : nat :=
  List.length (filter (fun s => negb (is_remote s)) l).

(** The name an event gives to a fragment, if it gives one. *)
Definition event_names (e : Event) : list string :=
  match e with
  | EvPush file_name => [file_name]
  | EvQueue file_name => [file_name]
  | _ => []
  end.

(** The names [readScripts] gave out, in the order of the enumeration:
    one per fragment, whether it was pushed at once or queued. *)
Definition assigned_names (st : Reader) : list string :=
  flat_map event_names (trace st).

(** Kinds of steps. *)
Definition is_increment (e : Event) : bool :=
  match e with EvIncrement => true | _ => false end.

Definition is_decrement (e : Event) : bool :=
  match e with EvDecrement => true | _ => false end.

Definition is_send (e : Event) : bool :=
  match e with EvSend _ => true | _ => false end.

(** The number of fetches whose [load] handler has run. *)
Definition completed (st : Reader) : nat :=
  List.length (filter is_decrement (trace st)).

(** The names the first loop gives to [scripts] from [scriptNumber] on. *)
Fixpoint names_from (scriptNumber : nat) (scripts : list HTMLScriptElement)
    : list string :=
  match scripts with
  | [] => []
  | script :: rest => script_name scriptNumber script :: names_from (S scriptNumber) rest
  end.

(** The events of the first loop on [scripts] from [scriptNumber] on. *)
Fixpoint loop_events (scripts : list HTMLScriptElement) (scriptNumber : nat)
    : list Event :=
  match scripts with
  | [] => []
  | script :: rest =>
      (if is_remote script
       then [EvIncrement; EvQueue (script_name scriptNumber script)]
       else [EvPush (script_name scriptNumber script)])
      ++ loop_events rest (S scriptNumber)
  end.

(** The events of reading the configuration script. *)
Definition config_events (config : option HTMLScriptElement) : list Event :=
  match config with
  | Some c => if is_remote c
              then [EvIncrement; EvQueue "tsconfig.json"]
              else [EvPush "tsconfig.json"]
  | None => []
  end.

(** The [script] elements of the body: the artifacts injected so far. *)
Definition injected (d : Document) : list Node :=
  filter (fun node => match node with Script _ _ => true | _ => false end) (body d).

(** The element [addScript] builds for [file]. *)
Definition script_element (this : Compiler) (file : TSFile) : Node :=
  Script (if js_test file then outputJsType this else outputOtherType this)
         (content file).

(** Every fetch that was dispatched completes: the events are one [load]
    per request, in any order. *)
Definition every_fetch_completes (events : list (nat * FetchResult))
    (requests : nat) : Prop :=
  Permutation (map fst events) (seq 0 requests) /\
  Forall (fun ev => snd ev <> Failed) events.

(** ** The words of the specification, for comparison with the code *)

(** [pat] occurs somewhere in [s]. *)
Fixpoint contains (pat s : string) : bool :=
  String.prefix pat s ||
  match s with
  | EmptyString => false
  | String _ rest => contains pat rest
  end.

(** [s] ends in [suffix]. *)
Fixpoint spec_ends_with (suffix s : string) : bool :=
  String.eqb s suffix ||
  match s with
  | EmptyString => false
  | String _ rest => spec_ends_with suffix rest
  end.

(** The final path segment of a location: what follows its last [/], and
    the whole location when it has none. *)
Fixpoint spec_final_segment (location : string) : string :=
  match location with
  | EmptyString => EmptyString
  | String c rest =>
      if contains "/" rest then spec_final_segment rest
      else if Ascii.eqb c "/" then rest
      else location
  end.



(** A fetch is treated alike whether it succeeds or fails: its end, of
    whatever kind, decrements the counter and contributes one file. *)
Definition spec_failure_as_success (st : Reader) (index : nat) : Prop :=
  forall r : FetchResult,
    n (waitingXHRsRef (deliver index r st)) = (n (waitingXHRsRef st) - 1)%Z /\
    List.length (read_files (deliver index r st)) = S (List.length (read_files st)).

(** The [div] in which [showOutput] shows the element [inner]. *)
Definition report_div (inner : Node) : Node :=
  Div "color: #FFF; background-color: #000;" inner.

(** The diagnostic output is rendered on the page [d'] that was [d]: the
    element [inner], in its [div], is the last node of the status
    container, after the nodes [d] had there; or, when [d] has no status
    container, it is the first node of the body, before the nodes [d] had
    there. *)
Definition diagnostic_rendered (inner : Node) (d d' : Document) : Prop :=
  match status_container d with
  | Some children => status_container d' = Some (children ++ [report_div inner])
  | None =>
      status_container d' = None /\
      exists behind, body d' = report_div inner :: body d ++ behind
  end.

(** The status element after [setError], [hideStatus] and [setStatus]. *)
Definition error_status (text : string) : StatusDom :=
  {| status_text := text; status_class := "header error" |}.

Definition hidden_status (text : string) : StatusDom :=
  {| status_text := text; status_class := "header hidden" |}.

Definition plain_status (text : string) : StatusDom :=
  {| status_text := text; status_class := "header" |}.

(** The note of [readScripts] about a missing configuration. *)
Definition missing_config_note : Node :=
  NotePre (Some "error")
    "TypeScript config not found... compilation is very unlikely to succeed.".

(** The loop over [output.files] as a fold: one [addScript] per file, in
    order. *)
Definition inject_all (this : Compiler) (fs : list TSFile) (d : Document) : Document :=
  fold_left (fun d' file => addScript this file d') fs d.

(** The page on which [showOutput] starts: the one [xhr.onload] was given,
    with the reason of the fault as its status when the response carries
    [error]. *)
Definition after_fault_check (response : Response) (d : Document) : Document :=
  if JS.truthy (error (snd response))
  then hideSpinner (setError (String.append "A server error occurred: <br/> "
                                            (JS.to_text (reason (snd response)))) d)
  else d.

(** The position of the last occurrence of [pat] in [s], if there is one:
    what the scan of [JS.lastIndexOf] finds, told from the end. *)
Fixpoint last_occurrence (pat s : string) : option nat :=
  match s with
  | EmptyString => if String.prefix pat s then Some 0 else None
  | String _ rest =>
      match last_occurrence pat rest with
      | Some k => Some (S k)
      | None => if String.prefix pat s then Some 0 else None
      end
  end.

(** ** Worked inputs *)

Module Sample.

(** A host whose markup has a [pre] element exactly when the text
    [<pre] occurs in it. *)
Definition host : HostAPI :=
  {| querySelector_pre := fun markup =>
       if contains "<pre" markup then Some (ParsedPre markup) else None |}.

(** A configuration, a page with all three status elements, and scripts
    of each kind. *)
Definition compiler : Compiler :=
  {| server := "http://localhost:8080";
     tsScriptType := "text/typescript";
     tsconfigType := "text/tsconfig";
     outputJsType := "text/javascript";
     outputOtherType := "text/plain" |}.

Definition doc : Document :=
  {| status := Some {| status_text := "Compiling..."; status_class := "header" |};
     spinner := Some "";
     status_container := Some [];
     body := [];
     window_status := "" |}.

Definition inline_script : HTMLScriptElement :=
  {| getAttribute_src := None; src := ""; script_innerHTML := "let x = 1;" |}.

Definition remote_script : HTMLScriptElement :=
  {| getAttribute_src := Some "lib/util.ts";
     src := "http://example.com/lib/util.ts";
     script_innerHTML := "" |}.

Definition directory_script : HTMLScriptElement :=
  {| getAttribute_src := Some "lib/";
     src := "http://example.com/lib/";
     script_innerHTML := "" |}.

Definition config_script : HTMLScriptElement :=
  {| getAttribute_src := Some "tsconfig.json";
     src := "http://example.com/tsconfig.json";
     script_innerHTML := "" |}.

(** [{error: true, reason: "overloaded"}] *)
Definition server_fault : Response :=
  ({| success := None; result := None; files := None |},
   {| error := Some true; reason := Some "overloaded" |}).

(** A fault that also carries a successful compilation. *)
Definition fault_with_files : Response :=
  ({| success := Some true; result := Some "<pre>done</pre>";
      files := Some [{| name := "a.js"; content := "run()" |}] |},
   {| error := Some true; reason := Some "overloaded" |}).

(** [{success: false, result: "<pre>error</pre>", files: []}] *)
Definition compile_failure : Response :=
  ({| success := Some false; result := Some "<pre>error</pre>"; files := Some [] |},
   {| error := None; reason := None |}).

(** A successful compilation of two artifacts. *)
Definition compile_success : Response :=
  ({| success := Some true; result := Some "<pre>ok</pre>";
      files := Some [{| name := "b.js"; content := "b()" |};
                     {| name := "b.js.map"; content := "{}" |}] |},
   {| error := None; reason := None |}).

(** A successful compilation whose artifacts are not in the order of
    their names. *)
Definition unordered_success : Response :=
  ({| success := Some true; result := Some "<pre>ok</pre>";
      files := Some [{| name := "b.js"; content := "b()" |};
                     {| name := "a.js"; content := "a()" |}] |},
   {| error := None; reason := None |}).

(** A successful compilation with an artifact whose name has two
    characters. *)
Definition short_name_success : Response :=
  ({| success := Some true; result := Some "<pre>ok</pre>";
      files := Some [{| name := "ab"; content := "not a script" |}] |},
   {| error := None; reason := None |}).

(** A successful compilation that carries no [files]. *)
Definition success_without_files : Response :=
  ({| success := Some true; result := Some "<pre>ok</pre>"; files := None |},
   {| error := None; reason := None |}).

(** A successful compilation whose report has no [pre] element. *)
Definition success_without_pre : Response :=
  ({| success := Some true; result := Some "Compiled 1 file.";
      files := Some [{| name := "a.js"; content := "run()" |}] |},
   {| error := None; reason := None |}).

End Sample.

(** ** The static side of the class *)

Module Configuration.

(** A configuration for the compiler API. *)
Record TSCompilerConfiguration := {
  server : string;
  tsScriptType : string;
  tsconfigType : string;
  outputJsType : string;
  outputOtherType : string
}.

End Configuration.

(** [Compiler.configure]: the static [instance] becomes a new compiler
    made from [options], whatever it was. *)
Definition configure (options : Configuration.TSCompilerConfiguration)
    (instance : option Compiler) : option Compiler :=
  Some {| server := Configuration.server options;
          tsScriptType := Configuration.tsScriptType options;
          tsconfigType := Configuration.tsconfigType options;
          outputJsType := Configuration.outputJsType options;
          outputOtherType := Configuration.outputOtherType options |}.

(** The static [Compiler.compile]: the page at the end and what was written
    with [console.error]. *)
Definition static_compile `{HostAPI} (instance : option Compiler)
    (scripts : list HTMLScriptElement) (config : option HTMLScriptElement)
    (fetches : list (nat * FetchResult)) (answer : CompileEnd)
    (d : Document) : Document * list string :=
  match instance with
  | Some this => (compile this scripts config fetches answer d, [])
  | None => (d, ["Tried to compile before confiuring!"])
  end.

(** Options for worked runs of the static side. *)
Definition sample_options : Configuration.TSCompilerConfiguration :=
  {| Configuration.server := "http://localhost:8080";
     Configuration.tsScriptType := "text/typescript";
     Configuration.tsconfigType := "text/tsconfig";
     Configuration.outputJsType := "module";
     Configuration.outputOtherType := "text/plain" |}.

(** ** What the reader holds, told from the enumeration *)

(** The fragments of the enumeration, each with the name it was given. *)
Definition named_enumeration (scripts : list HTMLScriptElement)
    (config : option HTMLScriptElement) (d : Document)
    : list (string * HTMLScriptElement) :=
  combine (assigned_names (enumerate scripts config d)) (enumeration scripts config).

Definition is_inline_entry (entry : string * HTMLScriptElement) : bool :=
  negb (is_remote (snd entry)).

(** The file of an inline fragment. *)
Definition file_of (entry : string * HTMLScriptElement) : TSFile :=
  {| name := fst entry; content := script_innerHTML (snd entry) |}.

(** The request of a remote fragment, none for an inline one. *)
Definition request_of (entry : string * HTMLScriptElement) : list XMLHttpRequest :=
  match getAttribute_src (snd entry) with
  | Some location => [{| url := location; onload_name := fst entry; sent := false |}]
  | None => []
  end.

(** The file an event brings: one for the [load] of a request that was
    sent, none otherwise. *)
Definition arrival (requests : list XMLHttpRequest) (ev : nat * FetchResult)
    : list TSFile :=
  match nth_error requests (fst ev), snd ev with
  | Some x, Loaded _ responseText =>
      if sent x then [{| name := onload_name x; content := responseText |}] else []
  | _, _ => []
  end.

(** An event that brings a file. *)
Definition brings_file (requests : list XMLHttpRequest) (ev : nat * FetchResult)
    : bool :=
  match arrival requests ev with
  | [] => false
  | _ :: _ => true
  end.

(** The files a list of events brings, in the order of the events. *)
Definition arrivals (requests : list XMLHttpRequest)
    (events : list (nat * FetchResult)) : list TSFile :=
  flat_map (arrival requests) events.

(** The type [addScript] gives, told by the name alone. *)
Definition type_by_name (this : Compiler) (file_name : string) : string :=
  if spec_ends_with ".js" file_name || Nat.eqb (String.length file_name) 2
  then outputJsType this
  else outputOtherType this.

(** The files the handler of [compile] gives to [addScript] for a
    response: those of a response that parses, has a [pre] element in its
    report, [success] and [files]. *)
Definition files_to_inject `{HostAPI} (parsed : option Response) : list TSFile :=
  match parsed with
  | Some response =>
      match querySelector_pre (JS.to_text (result (fst response))),
            files (fst response) with
      | Some _, Some fs => if JS.truthy (success (fst response)) then fs else []
      | _, _ => []
      end
  | None => []
  end.

(** The report the handler of [compile] shows for a response: the [div]
    around the [pre] element, when the response parses and has one. *)
Definition report_of `{HostAPI} (parsed : option Response) : list Node :=
  match parsed with
  | Some response =>
      match querySelector_pre (JS.to_text (result (fst response))) with
      | Some inner => [report_div inner]
      | None => []
      end
  | None => []
  end.

(** The name of the request at [index], empty when there is none. *)
Definition request_name (requests : list XMLHttpRequest) (index : nat) : string :=
  nth index (map onload_name requests) "".

(** * Properties *)

(** ** The enumeration pass *)

Section Enumeration.

Implicit Types (st : Reader) (script : HTMLScriptElement).

Lemma remote_count_cons script l :
  remote_count (script :: l)
  = (if is_remote script then 1 else 0) + remote_count l.
Proof. unfold remote_count; simpl; destruct (is_remote script); reflexivity. Qed.

Lemma inline_count_cons script l :
  inline_count (script :: l)
  = (if is_remote script then 0 else 1) + inline_count l.
Proof. unfold inline_count; simpl; destruct (is_remote script); reflexivity. Qed.

Lemma remote_count_app l1 l2 :
  remote_count (l1 ++ l2) = remote_count l1 + remote_count l2.
Proof. unfold remote_count; rewrite filter_app, length_app; reflexivity. Qed.

Lemma inline_count_app l1 l2 :
  inline_count (l1 ++ l2) = inline_count l1 + inline_count l2.
Proof. unfold inline_count; rewrite filter_app, length_app; reflexivity. Qed.

Lemma remote_inline_total l :
  remote_count l + inline_count l = List.length l.
Proof.
  induction l as [|script l IH]; [reflexivity|].
  rewrite remote_count_cons, inline_count_cons; simpl.
  destruct (is_remote script); lia.
Qed.

(** One call of [readScript], field by field. *)
Lemma readScript_inline file_name script st :
  is_remote script = false ->
  readScript file_name script st
  = push_file {| name := file_name; content := script_innerHTML script |} st.
Proof.
  unfold is_remote, readScript.
  destruct (getAttribute_src script); [discriminate | reflexivity].
Qed.

Lemma readScript_remote file_name script st :
  is_remote script = true ->
  exists location,
    getAttribute_src script = Some location /\
    readScript file_name script st
    = with_xhrs (increment st)
        (xhrs st ++ [{| url := location; onload_name := file_name; sent := false |}])
        (EvQueue file_name).
Proof.
  unfold is_remote, readScript.
  destruct (getAttribute_src script) as [location|]; [|discriminate].
  intros _; exists location; split; reflexivity.
Qed.

(** What [readScript] leaves alone. *)
Lemma readScript_frame file_name script st :
  called (waitingXHRsRef (readScript file_name script st)) = called (waitingXHRsRef st) /\
  callbacks (readScript file_name script st) = callbacks st /\
  page (readScript file_name script st) = page st.
Proof.
  unfold readScript; destruct (getAttribute_src script); simpl; auto.
Qed.

(** What [readScript] counts. *)
Lemma readScript_counts file_name script st :
  n (waitingXHRsRef (readScript file_name script st))
  = (n (waitingXHRsRef st) + (if is_remote script then 1 else 0))%Z /\
  List.length (xhrs (readScript file_name script st))
  = List.length (xhrs st) + (if is_remote script then 1 else 0) /\
  List.length (read_files (readScript file_name script st))
  = List.length (read_files st) + (if is_remote script then 0 else 1).
Proof.
  unfold readScript, is_remote; destruct (getAttribute_src script); simpl;
    rewrite ?length_app; simpl; repeat split; lia.
Qed.

Lemma readScript_trace file_name script st :
  trace (readScript file_name script st)
  = trace st ++ (if is_remote script
                 then [EvIncrement; EvQueue file_name]
                 else [EvPush file_name]).
Proof.
  unfold readScript, is_remote; destruct (getAttribute_src script); simpl;
    rewrite <- ?app_assoc; reflexivity.
Qed.

Lemma readScript_unsent file_name script st :
  Forall (fun x => sent x = false) (xhrs st) ->
  Forall (fun x => sent x = false) (xhrs (readScript file_name script st)).
Proof.
  intros Hall; unfold readScript; destruct (getAttribute_src script); simpl; auto.
  apply Forall_app; split; [assumption | constructor; [reflexivity | constructor]].
Qed.

(** Anything every call of [readScript] keeps, the loop keeps. *)
Lemma read_loop_preserves (P : Reader -> Prop) :
  (forall file_name script st, P st -> P (readScript file_name script st)) ->
  forall scripts k st, P st -> P (read_loop scripts k st).
Proof.
  intros Hstep scripts; induction scripts as [|script rest IH]; intros k st HP;
    simpl; [assumption | apply IH, Hstep, HP].
Qed.

Lemma read_loop_counts scripts : forall k st,
  n (waitingXHRsRef (read_loop scripts k st))
  = (n (waitingXHRsRef st) + Z.of_nat (remote_count scripts))%Z /\
  List.length (xhrs (read_loop scripts k st))
  = List.length (xhrs st) + remote_count scripts /\
  List.length (read_files (read_loop scripts k st))
  = List.length (read_files st) + inline_count scripts.
Proof.
  induction scripts as [|script rest IH]; intros k st; simpl.
  - unfold remote_count, inline_count; simpl; repeat split; lia.
  - destruct (IH (S k) (readScript (script_name k script) script st))
      as (Hn & Hx & Hf).
    destruct (readScript_counts (script_name k script) script st)
      as (Hn' & Hx' & Hf').
    rewrite Hn, Hx, Hf, Hn', Hx', Hf', remote_count_cons, inline_count_cons.
    destruct (is_remote script); repeat split; lia.
Qed.

Lemma read_loop_trace scripts : forall k st,
  trace (read_loop scripts k st) = trace st ++ loop_events scripts k.
Proof.
  induction scripts as [|script rest IH]; intros k st; simpl.
  - rewrite app_nil_r; reflexivity.
  - rewrite IH, readScript_trace, <- app_assoc; reflexivity.
Qed.

End Enumeration.

(** ** Enumeration as a whole, dispatch and the completion check *)

Section Dispatch.

Implicit Types (st : Reader) (x : XMLHttpRequest).

Lemma enumerate_trace scripts config d :
  trace (enumerate scripts config d)
  = loop_events scripts 0 ++ config_events config.
Proof.
  unfold enumerate; destruct config as [c|]; simpl.
  - rewrite readScript_trace, read_loop_trace; reflexivity.
  - rewrite read_loop_trace, app_nil_r; reflexivity.
Qed.

Lemma loop_events_names scripts : forall k,
  flat_map event_names (loop_events scripts k) = names_from k scripts.
Proof.
  induction scripts as [|script rest IH]; intros k; simpl; [reflexivity|].
  rewrite flat_map_app, IH; destruct (is_remote script); reflexivity.
Qed.

Lemma assigned_names_enumerate scripts config d :
  assigned_names (enumerate scripts config d)
  = names_from 0 scripts
    ++ match config with Some _ => ["tsconfig.json"] | None => [] end.
Proof.
  unfold assigned_names; rewrite enumerate_trace.
  rewrite flat_map_app, loop_events_names; f_equal.
  destruct config as [c|]; simpl; [destruct (is_remote c)|]; reflexivity.
Qed.

Lemma names_from_length scripts : forall k,
  List.length (names_from k scripts) = List.length scripts.
Proof. induction scripts; intros k; simpl; [|rewrite IHscripts]; reflexivity. Qed.

Lemma enumerate_counts scripts config d :
  n (waitingXHRsRef (enumerate scripts config d))
  = Z.of_nat (remote_count (enumeration scripts config)) /\
  List.length (xhrs (enumerate scripts config d))
  = remote_count (enumeration scripts config) /\
  List.length (read_files (enumerate scripts config d))
  = inline_count (enumeration scripts config).
Proof.
  unfold enumerate, enumeration.
  rewrite remote_count_app, inline_count_app.
  destruct config as [c|].
  - match goal with |- context [readScript ?nm c ?s] =>
      destruct (readScript_counts nm c s) as (Hn & Hx & Hf) end.
    rewrite Hn, Hx, Hf.
    match goal with |- context [read_loop scripts 0 ?s] =>
      destruct (read_loop_counts scripts 0 s) as (Hn' & Hx' & Hf') end.
    rewrite Hn', Hx', Hf'; simpl.
    rewrite remote_count_cons, inline_count_cons.
    unfold remote_count, inline_count; simpl.
    destruct (is_remote c); repeat split; lia.
  - match goal with |- context [read_loop scripts 0 ?s] =>
      destruct (read_loop_counts scripts 0 s) as (Hn' & Hx' & Hf') end.
    rewrite Hn', Hx', Hf'; unfold remote_count, inline_count; simpl.
    repeat split; lia.
Qed.

(** A property of the start that every [readScript] keeps holds when
    enumeration ends. *)
Lemma enumerate_preserves (P : Reader -> Prop) scripts config d :
  (forall file_name script st, P st -> P (readScript file_name script st)) ->
  (forall d', P (initial_reader d')) ->
  P (enumerate scripts config d).
Proof.
  intros Hstep Hinit; unfold enumerate.
  destruct config; [apply Hstep|]; apply read_loop_preserves; auto.
Qed.

Lemma enumerate_not_called scripts config d :
  called (waitingXHRsRef (enumerate scripts config d)) = false.
Proof.
  apply (enumerate_preserves (fun st => called (waitingXHRsRef st) = false));
    [|reflexivity].
  intros nm script st Hst.
  destruct (readScript_frame nm script st) as (Hc & _); congruence.
Qed.

Lemma enumerate_no_callback scripts config d :
  callbacks (enumerate scripts config d) = [].
Proof.
  apply (enumerate_preserves (fun st => callbacks st = [])); [|reflexivity].
  intros nm script st Hst.
  destruct (readScript_frame nm script st) as (_ & Hc & _); congruence.
Qed.

Lemma enumerate_unsent scripts config d :
  Forall (fun x => sent x = false) (xhrs (enumerate scripts config d)).
Proof.
  apply (enumerate_preserves
           (fun st => Forall (fun x => sent x = false) (xhrs st)));
    [|constructor].
  intros nm script st; apply readScript_unsent.
Qed.

(** [send] on the request that follows [done] in the queue. *)
Lemma mark_sent_app (done : list XMLHttpRequest) x rest :
  mark_sent (List.length done) (done ++ x :: rest) = done ++ as_sent x :: rest.
Proof. induction done as [|y done IH]; simpl; [|rewrite IH]; reflexivity. Qed.

Lemma send_loop_spec pending : forall done st,
  xhrs st = done ++ pending ->
  let st' := send_loop pending (List.length done) st in
  waitingXHRsRef st' = waitingXHRsRef st /\
  read_files st' = read_files st /\
  callbacks st' = callbacks st /\
  page st' = page st /\
  xhrs st' = done ++ map as_sent pending /\
  trace st' = trace st ++ map EvSend (seq (List.length done) (List.length pending)).
Proof.
  induction pending as [|x rest IH]; intros done st Hx; simpl.
  - rewrite app_nil_r in Hx; rewrite !app_nil_r; repeat split; auto.
  - specialize (IH (done ++ [as_sent x]) (send (List.length done) st)).
    rewrite length_app in IH; simpl in IH.
    replace (List.length done + 1) with (S (List.length done)) in IH by lia.
    destruct IH as (Hr & Hf & Hc & Hp & Hxs & Ht).
    + simpl; rewrite Hx, mark_sent_app, <- app_assoc; reflexivity.
    + rewrite Hr, Hf, Hc, Hp, Hxs, Ht; simpl.
      rewrite <- !app_assoc; repeat split; reflexivity.
Qed.

Lemma dispatch_spec st :
  waitingXHRsRef (dispatch st) = waitingXHRsRef st /\
  read_files (dispatch st) = read_files st /\
  callbacks (dispatch st) = callbacks st /\
  page (dispatch st) = page st /\
  xhrs (dispatch st) = map as_sent (xhrs st) /\
  trace (dispatch st) = trace st ++ map EvSend (seq 0 (List.length (xhrs st))).
Proof. exact (send_loop_spec (xhrs st) [] st eq_refl). Qed.

Lemma dispatch_all_sent st :
  Forall (fun x => sent x = true) (xhrs (dispatch st)).
Proof.
  destruct (dispatch_spec st) as (_ & _ & _ & _ & Hx & _); rewrite Hx.
  apply Forall_map, Forall_forall; reflexivity.
Qed.

(** The check only ever adds one invocation of the callback. *)
Lemma completion_check_frame st :
  waitingXHRsRef (completion_check st) = waitingXHRsRef st /\
  read_files (completion_check st) = read_files st /\
  xhrs (completion_check st) = xhrs st /\
  page (completion_check st) = page st.
Proof.
  unfold completion_check.
  destruct (_ && _); simpl; repeat split; reflexivity.
Qed.

Lemma completion_check_fires st :
  n (waitingXHRsRef st) = 0%Z ->
  called (waitingXHRsRef st) = false ->
  completion_check st = invoke_callback st.
Proof. intros Hn Hc; unfold completion_check; rewrite Hn, Hc; reflexivity. Qed.

Lemma completion_check_waits st :
  n (waitingXHRsRef st) <> 0%Z ->
  completion_check st = st.
Proof.
  intros Hn; unfold completion_check.
  destruct (Z.eqb_spec (n (waitingXHRsRef st)) 0); [contradiction | reflexivity].
Qed.

End Dispatch.

(** ** The requests complete *)

Section Completion.

Implicit Types (st : Reader) (x : XMLHttpRequest).

Lemma xhr_onload_spec file_name text st :
  let st' := xhr_onload file_name text st in
  n (waitingXHRsRef st') = (n (waitingXHRsRef st) - 1)%Z /\
  called (waitingXHRsRef st') = called (waitingXHRsRef st) /\
  xhrs st' = xhrs st /\
  page st' = page st /\
  read_files st' = read_files st ++ [{| name := file_name; content := text |}] /\
  callbacks st'
  = (if (n (waitingXHRsRef st) - 1 =? 0)%Z && negb (called (waitingXHRsRef st))
     then callbacks st ++ [{| program_files := read_files st' |}]
     else callbacks st) /\
  trace st'
  = trace st ++ [EvPush file_name; EvDecrement]
    ++ (if (n (waitingXHRsRef st) - 1 =? 0)%Z && negb (called (waitingXHRsRef st))
        then [EvCallback] else []).
Proof.
  unfold xhr_onload, completion_check; simpl.
  destruct (_ && _); simpl; rewrite <- ?app_assoc; simpl; repeat split; reflexivity.
Qed.

(** The end of a request that was sent and ended with [load]. *)
Lemma deliver_loaded index x http_status text st :
  nth_error (xhrs st) index = Some x ->
  sent x = true ->
  deliver index (Loaded http_status text) st = xhr_onload (onload_name x) text st.
Proof. intros Hx Hs; unfold deliver; rewrite Hx, Hs; reflexivity. Qed.

(** Nothing listens to the [error] event. *)
Lemma deliver_failed index st : deliver index Failed st = st.
Proof.
  unfold deliver; destruct (nth_error (xhrs st) index) as [x|]; [|reflexivity].
  destruct (sent x); reflexivity.
Qed.

(** Whatever arrives, the flag [called] keeps its value, no request is
    added, sent or counted, and the counter is the one at the start
    less the handlers that ran. *)
Lemma deliver_any index r st :
  exists later,
    trace (deliver index r st) = trace st ++ later /\
    Forall (fun e => is_increment e = false /\ is_send e = false) later /\
    n (waitingXHRsRef (deliver index r st))
    = (n (waitingXHRsRef st) - Z.of_nat (List.length (filter is_decrement later)))%Z /\
    called (waitingXHRsRef (deliver index r st)) = called (waitingXHRsRef st) /\
    xhrs (deliver index r st) = xhrs st.
Proof.
  assert (Hsame : exists later,
    trace st = trace st ++ later /\
    Forall (fun e => is_increment e = false /\ is_send e = false) later /\
    n (waitingXHRsRef st)
    = (n (waitingXHRsRef st) - Z.of_nat (List.length (filter is_decrement later)))%Z /\
    called (waitingXHRsRef st) = called (waitingXHRsRef st) /\
    xhrs st = xhrs st).
  { exists []; rewrite app_nil_r; simpl; repeat split; auto; lia. }
  unfold deliver; destruct (nth_error (xhrs st) index) as [x|]; [|exact Hsame].
  destruct (sent x); [|exact Hsame].
  destruct r as [http_status text|]; [|exact Hsame].
  destruct (xhr_onload_spec (onload_name x) text st)
    as (Hn & Hc & Hx & _ & _ & _ & Ht).
  eexists; split; [exact Ht|].
  destruct (_ && _); simpl; repeat split; auto; try lia;
    repeat constructor.
Qed.

Lemma run_any events : forall st,
  exists later,
    trace (run events st) = trace st ++ later /\
    Forall (fun e => is_increment e = false /\ is_send e = false) later /\
    n (waitingXHRsRef (run events st))
    = (n (waitingXHRsRef st) - Z.of_nat (List.length (filter is_decrement later)))%Z /\
    called (waitingXHRsRef (run events st)) = called (waitingXHRsRef st) /\
    xhrs (run events st) = xhrs st.
Proof.
  induction events as [|[index r] rest IH]; intros st; simpl.
  - exists []; rewrite app_nil_r; simpl; repeat split; auto; lia.
  - destruct (deliver_any index r st) as (l1 & Ht1 & Hf1 & Hn1 & Hc1 & Hx1).
    destruct (IH (deliver index r st)) as (l2 & Ht2 & Hf2 & Hn2 & Hc2 & Hx2).
    exists (l1 ++ l2); rewrite Ht2, Ht1, <- app_assoc.
    rewrite filter_app, length_app, Hn2, Hn1, Hc2, Hc1, Hx2, Hx1.
    repeat split; auto; [apply Forall_app; split; assumption | lia].
Qed.

(** Loads of sent requests, counted: each takes one from the counter and
    adds one file; the callback runs at the load that brings the counter
    to zero and not before. *)
Lemma run_loads events : forall st,
  called (waitingXHRsRef st) = false ->
  Forall (fun x => sent x = true) (xhrs st) ->
  Forall (fun ev => fst ev < List.length (xhrs st) /\ snd ev <> Failed) events ->
  let st' := run events st in
  n (waitingXHRsRef st')
  = (n (waitingXHRsRef st) - Z.of_nat (List.length events))%Z /\
  List.length (read_files st') = List.length (read_files st) + List.length events /\
  (Z.of_nat (List.length events) < n (waitingXHRsRef st) ->
   callbacks st' = callbacks st)%Z /\
  (events <> [] ->
   Z.of_nat (List.length events) = n (waitingXHRsRef st) ->
   callbacks st' = callbacks st ++ [{| program_files := read_files st' |}]).
Proof.
  induction events as [|[index r] rest IH]; intros st Hcalled Hsent Hevents.
  - simpl; repeat split; auto; try lia. intros Hne; contradiction.
  - inversion Hevents as [|ev evs [Hindex Hload] Hrest]; subst; simpl in *.
    destruct (nth_error (xhrs st) index) as [x|] eqn:Hx;
      [|apply nth_error_None in Hx; lia].
    assert (Hsx : sent x = true).
    { rewrite Forall_forall in Hsent; apply Hsent; eapply nth_error_In; eauto. }
    destruct r as [http_status text|]; [|contradiction].
    rewrite (deliver_loaded index x http_status text st Hx Hsx).
    destruct (xhr_onload_spec (onload_name x) text st)
      as (Hn1 & Hc1 & Hx1 & _ & Hf1 & Hcb1 & _).
    rewrite Hcalled in Hcb1; simpl in Hcb1; rewrite andb_true_r in Hcb1.
    specialize (IH (xhr_onload (onload_name x) text st)).
    rewrite Hc1, Hx1, Hn1, Hf1, length_app in IH; simpl in IH.
    destruct (IH Hcalled Hsent Hrest) as (Hn & Hf & Hbefore & Hat).
    rewrite Hn, Hf; repeat split; try lia.
    + intros Hlt; rewrite Hbefore by lia.
      destruct (Z.eqb_spec (n (waitingXHRsRef st) - 1) 0); [lia | assumption].
    + intros _ Hlen.
      destruct rest as [|ev' rest'].
      * simpl in *.
        destruct (Z.eqb_spec (n (waitingXHRsRef st) - 1) 0); [assumption | lia].
      * rewrite Hat; [|discriminate|lia].
        destruct (Z.eqb_spec (n (waitingXHRsRef st) - 1) 0);
          [simpl in Hlen; lia | rewrite Hcb1; reflexivity].
Qed.

(** The state in which [readScripts] returns. *)
Lemma readScripts_returns scripts config d :
  let st := readScripts scripts config d in
  let R := remote_count (enumeration scripts config) in
  n (waitingXHRsRef st) = Z.of_nat R /\
  called (waitingXHRsRef st) = false /\
  List.length (xhrs st) = R /\
  Forall (fun x => sent x = true) (xhrs st) /\
  List.length (read_files st) = inline_count (enumeration scripts config) /\
  callbacks st = (if Nat.eqb R 0 then [{| program_files := read_files st |}] else []).
Proof.
  simpl; unfold readScripts.
  destruct (completion_check_frame (dispatch (enumerate scripts config d)))
    as (Hr & Hf & Hx & _).
  destruct (dispatch_spec (enumerate scripts config d))
    as (Hr' & Hf' & Hc' & _ & Hx' & _).
  destruct (enumerate_counts scripts config d) as (Hn & Hlx & Hlf).
  pose proof (enumerate_not_called scripts config d) as Hcalled.
  pose proof (enumerate_no_callback scripts config d) as Hcb.
  pose proof (dispatch_all_sent (enumerate scripts config d)) as Hsent.
  rewrite Hr, Hf, Hx, Hr', Hf'.
  repeat split; auto.
  - rewrite Hx', length_map; assumption.
  - destruct (Nat.eqb_spec (remote_count (enumeration scripts config)) 0) as [HR|HR].
    + rewrite completion_check_fires by (rewrite Hr'; try rewrite Hn, HR; auto).
      simpl; rewrite Hc', Hcb, Hf'; reflexivity.
    + rewrite completion_check_waits by (rewrite Hr', Hn; lia).
      rewrite Hc'; assumption.
Qed.

End Completion.

(** ** The join *)

Lemma completes_length events requests :
  every_fetch_completes events requests ->
  List.length events = requests /\
  Forall (fun ev => fst ev < requests /\ snd ev <> Failed) events.
Proof.
  intros [Hperm Hloads]; split.
  - rewrite <- (length_map fst events), (Permutation_length Hperm).
    apply length_seq.
  - rewrite Forall_forall in *; intros ev Hin; split; [|auto].
    assert (Hseq : In (fst ev) (seq 0 requests)).
    { eapply Permutation_in; [exact Hperm | apply in_map, Hin]. }
    apply in_seq in Hseq; lia.
Qed.

(** C1.  For every enumeration with R remote and L inline fragments (the
    configuration fragment counted when present), if every dispatched fetch
    completes, in whatever order and with whatever status and text,
    [readScripts] invokes its callback exactly once: the callback has not
    run after any shorter part of the events, it has run once after all of
    them, and the program it received holds the R + L fragments of the
    shared array. *)
Theorem readScripts_calls_back_once scripts config d events :
  every_fetch_completes events (remote_count (enumeration scripts config)) ->
  let final := run events (readScripts scripts config d) in
  callbacks final = [{| program_files := read_files final |}] /\
  List.length (read_files final)
  = remote_count (enumeration scripts config)
    + inline_count (enumeration scripts config) /\
  (forall k, k < List.length events ->
     callbacks (run (firstn k events) (readScripts scripts config d)) = []).
Proof.
  intros Hcomplete; apply completes_length in Hcomplete.
  destruct Hcomplete as [Hlen Hevents].
  destruct (readScripts_returns scripts config d)
    as (Hn & Hcalled & Hxs & Hsent & Hfiles & Hcb).
  rewrite <- Hxs in Hevents.
  destruct (run_loads events _ Hcalled Hsent Hevents) as (_ & Hf & _ & Hat).
  simpl; repeat split.
  - destruct events as [|ev rest].
    + simpl in *; rewrite <- Hlen in Hcb; exact Hcb.
    + rewrite Hat; [|discriminate|lia].
      rewrite Hcb, <- Hlen; reflexivity.
  - rewrite Hf, Hfiles; lia.
  - intros k Hk.
    assert (Hpre : Forall (fun ev => fst ev < List.length
                     (xhrs (readScripts scripts config d)) /\ snd ev <> Failed)
                     (firstn k events)).
    { rewrite <- (firstn_skipn k events) in Hevents.
      apply Forall_app in Hevents; tauto. }
    destruct (run_loads (firstn k events) _ Hcalled Hsent Hpre)
      as (_ & _ & Hbefore & _).
    rewrite Hbefore by (rewrite length_firstn; lia).
    rewrite Hcb; destruct (Nat.eqb_spec (remote_count (enumeration scripts config)) 0);
      [lia | reflexivity].
Qed.

Lemma readScripts_calls_back_once_witness :
  let scripts := [Sample.inline_script; Sample.remote_script] in
  let config := Some Sample.config_script in
  let events := [(1, Loaded 200 "{}"); (0, Loaded 404 "Not Found")] in
  every_fetch_completes events (remote_count (enumeration scripts config)) /\
  List.length (callbacks (run events (readScripts scripts config Sample.doc))) = 1.
Proof.
  assert (Hc : every_fetch_completes
                 [(1, Loaded 200 "{}"); (0, Loaded 404 "Not Found")]
                 (remote_count (enumeration
                    [Sample.inline_script; Sample.remote_script]
                    (Some Sample.config_script)))).
  { split.
    - exact (perm_swap 0 1 []).
    - repeat constructor; discriminate. }
  split; [exact Hc|].
  destruct (readScripts_calls_back_once
              [Sample.inline_script; Sample.remote_script]
              (Some Sample.config_script) Sample.doc _ Hc) as (Hcb & _).
  rewrite Hcb; reflexivity.
Defined.

(** The flag [called] is never written: it is false when [readScripts]
    returns and after any events. *)
Lemma called_stays_false scripts config d events :
  called (waitingXHRsRef (run events (readScripts scripts config d))) = false.
Proof.
  destruct (run_any events (readScripts scripts config d))
    as (later & _ & _ & _ & Hc & _).
  destruct (readScripts_returns scripts config d) as (_ & Hcalled & _).
  congruence.
Qed.

(** While the counter is zero, each further pass through the completion
    check invokes the callback once more. *)
Lemma completion_check_repeats scripts config d events :
  let st := run events (readScripts scripts config d) in
  n (waitingXHRsRef st) = 0%Z ->
  callbacks (completion_check st)
  = callbacks st ++ [{| program_files := read_files st |}].
Proof.
  intros st Hn.
  rewrite completion_check_fires;
    [reflexivity | assumption | apply called_stays_false].
Qed.

(** C2, on a page without scripts.  The callback has run once when
    [readScripts] returns, yet [called] is still false; passing through
    the completion check again invokes the callback a second time. *)
Theorem fired_guard_does_not_latch :
  let st := readScripts [] None Sample.doc in
  callbacks st = [{| program_files := [] |}] /\
  called (waitingXHRsRef st) = false /\
  callbacks (completion_check st)
  = [{| program_files := [] |}; {| program_files := [] |}].
Proof. repeat split; reflexivity. Qed.

(** ** The order of increments and sends *)

Section Ordering.

Lemma loop_events_shape scripts : forall k,
  List.length (filter is_increment (loop_events scripts k)) = remote_count scripts /\
  Forall (fun e => is_send e = false /\ is_decrement e = false)
         (loop_events scripts k).
Proof.
  induction scripts as [|script rest IH]; intros k; simpl.
  - split; [reflexivity | constructor].
  - destruct (IH (S k)) as [Hcount Hall].
    rewrite filter_app, length_app, Hcount, remote_count_cons.
    destruct (is_remote script); simpl; (split; [reflexivity|]);
      repeat (constructor; [split; reflexivity|]); assumption.
Qed.

Lemma config_events_shape config :
  List.length (filter is_increment (config_events config))
  = remote_count (match config with Some c => [c] | None => [] end) /\
  Forall (fun e => is_send e = false /\ is_decrement e = false)
         (config_events config).
Proof.
  destruct config as [c|]; simpl; [|split; [reflexivity | constructor]].
  rewrite remote_count_cons.
  destruct (is_remote c); simpl; (split; [reflexivity|]);
    repeat (constructor; [split; reflexivity|]); constructor.
Qed.

(** The events of enumeration: as many increments as there are remote
    fragments, no send, no decrement. *)
Lemma enumerate_shape scripts config d :
  List.length (filter is_increment (trace (enumerate scripts config d)))
  = remote_count (enumeration scripts config) /\
  Forall (fun e => is_send e = false /\ is_decrement e = false)
         (trace (enumerate scripts config d)).
Proof.
  rewrite enumerate_trace; unfold enumeration.
  destruct (loop_events_shape scripts 0) as [Hc1 Ha1].
  destruct (config_events_shape config) as [Hc2 Ha2].
  rewrite filter_app, length_app, Hc1, Hc2, remote_count_app.
  split; [reflexivity | apply Forall_app; split; assumption].
Qed.

(** The trace of a whole run: enumeration, then the sends, then the rest,
    in which nothing is counted up or sent. *)
Lemma readScripts_trace scripts config d :
  exists fired,
    trace (readScripts scripts config d)
    = trace (enumerate scripts config d)
      ++ map EvSend (seq 0 (List.length (xhrs (enumerate scripts config d))))
      ++ fired /\
    (fired = [] \/ fired = [EvCallback]).
Proof.
  destruct (dispatch_spec (enumerate scripts config d))
    as (_ & _ & _ & _ & _ & Hd).
  unfold readScripts, completion_check.
  destruct (_ && _); simpl; rewrite Hd, <- ?app_assoc.
  - exists [EvCallback]; auto.
  - exists []; rewrite app_nil_r; auto.
Qed.


Lemma filter_none {A} (f : A -> bool) l :
  Forall (fun a => f a = false) l -> filter f l = [].
Proof.
  induction 1 as [|a l Ha _ IH]; simpl; [|rewrite Ha]; auto.
Qed.





End Ordering.



(** After dispatch the counter is the remote count less the fetches whose
    [load] handler has run. *)
Lemma counter_tracks_completions scripts config d events :
  let st := run events (readScripts scripts config d) in
  n (waitingXHRsRef st)
  = (Z.of_nat (remote_count (enumeration scripts config)) - Z.of_nat (completed st))%Z.
Proof.
  simpl; unfold completed.
  destruct (run_any events (readScripts scripts config d))
    as (later & Ht & _ & Hn & _).
  destruct (readScripts_returns scripts config d) as (Hn0 & _).
  rewrite Hn, Hn0, Ht, filter_app, length_app.
  destruct (enumerate_shape scripts config d) as [_ Henum].
  assert (Hzero : filter is_decrement (trace (readScripts scripts config d)) = []).
  { destruct (readScripts_trace scripts config d) as (fired & Ht0 & Hfired).
    rewrite Ht0; apply filter_none; repeat (apply Forall_app; split).
    - eapply Forall_impl; [|exact Henum]; simpl; tauto.
    - apply Forall_map, Forall_forall; reflexivity.
    - destruct Hfired as [-> | ->]; repeat constructor. }
  rewrite Hzero; simpl; lia.
Qed.

(** ** No remote fragment *)

Lemma run_without_requests events : forall st,
  xhrs st = [] -> run events st = st.
Proof.
  induction events as [|[index r] rest IH]; intros st Hx; simpl; [reflexivity|].
  assert (Hd : deliver index r st = st).
  { unfold deliver; rewrite Hx; destruct index; reflexivity. }
  rewrite Hd; apply IH, Hx.
Qed.

(** C4.  When the enumeration has no remote fragment, the callback has
    run, once, by the time [readScripts] returns; the program it received
    holds every fragment of the enumeration, which is what a run with
    fetches ends in once they have all resolved; no request exists, so no
    later event changes anything. *)
Theorem no_remote_fires_synchronously scripts config d :
  remote_count (enumeration scripts config) = 0 ->
  let st := readScripts scripts config d in
  callbacks st = [{| program_files := read_files st |}] /\
  List.length (read_files st) = List.length (enumeration scripts config) /\
  xhrs st = [] /\
  (forall events, run events st = st).
Proof.
  intros HR st; subst st.
  destruct (readScripts_returns scripts config d)
    as (_ & _ & Hxs & _ & Hfiles & Hcb).
  rewrite HR in *; simpl in Hcb.
  assert (Hnil : xhrs (readScripts scripts config d) = []).
  { apply length_zero_iff_nil, Hxs. }
  repeat split; auto.
  - rewrite Hfiles, <- (remote_inline_total (enumeration scripts config)); lia.
  - intros events; apply run_without_requests, Hnil.
Qed.

Lemma no_remote_fires_synchronously_witness :
  let scripts := [Sample.inline_script; Sample.inline_script] in
  remote_count (enumeration scripts None) = 0 /\
  List.length (callbacks (readScripts scripts None Sample.doc)) = 1.
Proof.
  split; [reflexivity|].
  destruct (no_remote_fires_synchronously
              [Sample.inline_script; Sample.inline_script] None Sample.doc eq_refl)
    as (Hcb & _).
  rewrite Hcb; reflexivity.
Defined.

(** ** Fetches that fail *)

(** C6 as stated fails: a fetch that ends with the [error] event of the
    transport leaves the counter and the files as they were, and the
    callback is never invoked. *)
Lemma failed_fetch_is_not_counted :
  let st := readScripts [Sample.remote_script] None Sample.doc in
  ~ spec_failure_as_success st 0 /\
  n (waitingXHRsRef (run [(0, Failed)] st)) = 1%Z /\
  read_files (run [(0, Failed)] st) = [] /\
  callbacks (run [(0, Failed)] st) = [].
Proof.
  repeat split; try reflexivity.
  intros Hspec; destruct (Hspec Failed) as [Hn _].
  vm_compute in Hn; discriminate.
Qed.

(** C6, amended.  In any state a run of [readScripts] reaches, the end of
    a request with a [load] event is handled without regard to the HTTP
    status: the counter goes down by one and one file with the captured
    name and the response text, whatever it is, joins the list.  The end of
    a request with the [error] event changes nothing. *)
Theorem load_is_handled_whatever_the_status
    scripts config d before index http_status text :
  index < remote_count (enumeration scripts config) ->
  let st := run before (readScripts scripts config d) in
  exists x,
    nth_error (xhrs st) index = Some x /\
    n (waitingXHRsRef (deliver index (Loaded http_status text) st))
    = (n (waitingXHRsRef st) - 1)%Z /\
    read_files (deliver index (Loaded http_status text) st)
    = read_files st ++ [{| name := onload_name x; content := text |}] /\
    deliver index (Loaded http_status text) st = deliver index (Loaded 200 text) st /\
    deliver index Failed st = st.
Proof.
  intros Hindex st; subst st.
  destruct (run_any before (readScripts scripts config d))
    as (later & _ & _ & _ & _ & Hxs).
  destruct (readScripts_returns scripts config d)
    as (_ & _ & Hlen & Hsent & _).
  rewrite <- Hxs in Hlen, Hsent.
  destruct (nth_error (xhrs (run before (readScripts scripts config d))) index)
    as [x|] eqn:Hx; [|apply nth_error_None in Hx; lia].
  assert (Hsx : sent x = true).
  { rewrite Forall_forall in Hsent; apply Hsent; eapply nth_error_In; eauto. }
  exists x; split; [reflexivity|].
  rewrite !(deliver_loaded index x _ text _ Hx Hsx).
  destruct (xhr_onload_spec (onload_name x) text
              (run before (readScripts scripts config d)))
    as (Hn & _ & _ & _ & Hf & _).
  repeat split; auto using deliver_failed.
Qed.

Lemma load_is_handled_whatever_the_status_witness :
  let st := run [] (readScripts [Sample.remote_script] None Sample.doc) in
  0 < remote_count (enumeration [Sample.remote_script] None) /\
  exists x,
    nth_error (xhrs st) 0 = Some x /\
    n (waitingXHRsRef (deliver 0 (Loaded 404 "Not Found") st))
    = (n (waitingXHRsRef st) - 1)%Z /\
    read_files (deliver 0 (Loaded 404 "Not Found") st)
    = read_files st ++ [{| name := onload_name x; content := "Not Found" |}] /\
    deliver 0 (Loaded 404 "Not Found") st = deliver 0 (Loaded 200 "Not Found") st /\
    deliver 0 Failed st = st.
Proof.
  split; [apply Nat.lt_0_1|].
  exact (load_is_handled_whatever_the_status
           [Sample.remote_script] None Sample.doc [] 0 404 "Not Found" Nat.lt_0_1).
Defined.

(** ** Strings *)

Section Strings.

Implicit Types (pat s : string).

Lemma lastIndexOf_from_spec pat s : forall i acc,
  JS.lastIndexOf_from pat s i acc
  = match last_occurrence pat s with
    | Some k => (i + Z.of_nat k)%Z
    | None => acc
    end.
Proof.
  induction s as [|c rest IH]; intros i acc.
  - cbn [JS.lastIndexOf_from last_occurrence].
    destruct (String.prefix pat ""); [simpl; lia | reflexivity].
  - cbn [JS.lastIndexOf_from last_occurrence].
    rewrite IH.
    destruct (last_occurrence pat rest) as [k|]; [lia|].
    destruct (String.prefix pat (String c rest)); [simpl; lia | reflexivity].
Qed.

Lemma lastIndexOf_spec s pat :
  JS.lastIndexOf s pat
  = match last_occurrence pat s with
    | Some k => Z.of_nat k
    | None => (-1)%Z
    end.
Proof.
  unfold JS.lastIndexOf; rewrite lastIndexOf_from_spec.
  destruct (last_occurrence pat s); reflexivity.
Qed.

Lemma prefix_length pat : forall s,
  String.prefix pat s = true -> String.length pat <= String.length s.
Proof.
  induction pat as [|a pat IH]; intros s Hp; simpl; [lia|].
  destruct s as [|b s]; simpl in Hp; [discriminate|].
  destruct (Ascii.ascii_dec a b); [|discriminate].
  apply IH in Hp; simpl; lia.
Qed.

Lemma prefix_same_length pat : forall s,
  String.prefix pat s = true -> String.length pat = String.length s -> s = pat.
Proof.
  induction pat as [|a pat IH]; intros s Hp Hlen.
  - destruct s; [reflexivity | discriminate].
  - destruct s as [|b s]; simpl in Hp; [discriminate|].
    destruct (Ascii.ascii_dec a b) as [->|]; [|discriminate].
    f_equal; apply IH; [assumption | simpl in Hlen; lia].
Qed.

Lemma prefix_refl pat : String.prefix pat pat = true.
Proof.
  induction pat as [|a pat IH]; simpl; [reflexivity|].
  destruct (Ascii.ascii_dec a a); [assumption | contradiction].
Qed.

(** An occurrence leaves room for the whole pattern. *)
Lemma last_occurrence_bound pat s : forall k,
  last_occurrence pat s = Some k ->
  k + String.length pat <= String.length s.
Proof.
  induction s as [|c rest IH]; intros k Hk; cbn [last_occurrence] in Hk.
  - destruct (String.prefix pat "") eqn:Hp; [|discriminate].
    injection Hk as <-; apply prefix_length in Hp; simpl in *; lia.
  - destruct (last_occurrence pat rest) as [k'|].
    + injection Hk as <-; specialize (IH k' eq_refl); simpl; lia.
    + destruct (String.prefix pat (String c rest)) eqn:Hp; [|discriminate].
      injection Hk as <-; apply prefix_length in Hp; simpl in *; lia.
Qed.

(** [s] ends in [pat] exactly when the last occurrence of [pat] in [s]
    reaches the end of [s]. *)
Lemma ends_with_last_occurrence pat s :
  spec_ends_with pat s = true <->
  exists k, last_occurrence pat s = Some k /\
            k + String.length pat = String.length s.
Proof.
  induction s as [|c rest IH]; cbn [spec_ends_with last_occurrence].
  - rewrite orb_false_r; split.
    + intros He; apply String.eqb_eq in He; subst pat.
      exists 0; split; reflexivity.
    + intros (k & Hk & Hlen).
      destruct pat; [reflexivity | simpl in Hlen; lia].
  - split.
    + intros He; apply orb_true_iff in He; destruct He as [He|He].
      * apply String.eqb_eq in He; subst pat.
        destruct (last_occurrence (String c rest) rest) as [k|] eqn:Hk.
        { apply last_occurrence_bound in Hk; simpl in Hk; lia. }
        rewrite prefix_refl; exists 0; split; reflexivity.
      * apply IH in He; destruct He as (k & Hk & Hlen).
        rewrite Hk; exists (S k); split; [reflexivity | simpl; lia].
    + intros (k & Hk & Hlen); apply orb_true_iff.
      destruct (last_occurrence pat rest) as [k'|] eqn:Hk'.
      * injection Hk as <-; right; apply IH.
        exists k'; split; [reflexivity | simpl in Hlen; lia].
      * destruct (String.prefix pat (String c rest)) eqn:Hp; [|discriminate].
        injection Hk as <-; left; apply String.eqb_eq.
        apply prefix_same_length; [assumption | simpl in *; lia].
Qed.

(** The test of [addScript] in the words of the specification: it holds
    for the names that end in [.js], and for every name of two
    characters, where [lastIndexOf] and [length - 3] are both [-1]. *)
Lemma js_test_spec file :
  js_test file = true <->
  spec_ends_with ".js" (name file) = true \/ String.length (name file) = 2.
Proof.
  unfold js_test, JS.length; rewrite lastIndexOf_spec, Z.eqb_eq.
  rewrite ends_with_last_occurrence.
  destruct (last_occurrence ".js" (name file)) as [k|] eqn:Hk.
  - pose proof (last_occurrence_bound _ _ _ Hk) as Hb; simpl in Hb.
    split.
    + intros He; left; exists k; split; [reflexivity | simpl; lia].
    + intros [(k' & Hk' & Hlen) | Hlen]; [|lia].
      injection Hk' as <-; simpl in Hlen; lia.
  - split.
    + intros He; right; lia.
    + intros [(k' & Hk' & _) | Hlen]; [discriminate | lia].
Qed.

Lemma prefix_slash c rest :
  String.prefix "/" (String c rest) = Ascii.eqb c "/".
Proof.
  cbn [String.prefix].
  replace (String.prefix "" rest) with true by (destruct rest; reflexivity).
  destruct (Ascii.ascii_dec "/" c) as [<-|Hne]; [reflexivity|].
  destruct (Ascii.eqb_spec c "/"); congruence.
Qed.

(** The name derived from a location, in the words of the
    specification: the final path segment, behind the [/] that precedes
    it when the location has one. *)
Lemma slash_split s :
  match last_occurrence "/" s with
  | Some k => contains "/" s = true /\
              JS.drop k s = String "/" (spec_final_segment s)
  | None => contains "/" s = false /\ spec_final_segment s = s
  end.
Proof.
  induction s as [|c rest IH]; [simpl; auto|].
  cbn [last_occurrence contains spec_final_segment].
  rewrite prefix_slash.
  destruct (last_occurrence "/" rest) as [k|]; destruct IH as [Hc Hf]; rewrite Hc.
  - rewrite orb_true_r; split; [reflexivity | exact Hf].
  - rewrite orb_false_r.
    destruct (Ascii.eqb_spec c "/") as [->|Hne]; split; reflexivity.
Qed.

Lemma derived_name_spec s :
  JS.substring s (JS.lastIndexOf s "/")
  = String.append (if contains "/" s then "/" else "") (spec_final_segment s).
Proof.
  unfold JS.substring; rewrite lastIndexOf_spec.
  pose proof (slash_split s) as Hs.
  destruct (last_occurrence "/" s) as [k|]; destruct Hs as [Hc Hf]; rewrite Hc.
  - rewrite Nat2Z.id; exact Hf.
  - simpl; symmetry; exact Hf.
Qed.

Lemma derived_name_empty s :
  JS.substring s (JS.lastIndexOf s "/") = "" <-> s = "".
Proof.
  rewrite derived_name_spec; split.
  - destruct (contains "/" s) eqn:Hc; simpl; [discriminate|].
    pose proof (slash_split s) as Hs.
    destruct (last_occurrence "/" s); destruct Hs as [Hc' Hf]; congruence.
  - intros ->; reflexivity.
Qed.

Lemma ends_with_refl s : spec_ends_with s s = true.
Proof. destruct s; cbn [spec_ends_with]; rewrite String.eqb_refl; reflexivity. Qed.

Lemma derived_name_ends_with_segment s :
  spec_ends_with (spec_final_segment s) (JS.substring s (JS.lastIndexOf s "/")) = true.
Proof.
  rewrite derived_name_spec; destruct (contains "/" s).
  - change (String.append "/" (spec_final_segment s))
      with (String "/" (spec_final_segment s)).
    cbn [spec_ends_with]; rewrite ends_with_refl; apply orb_true_r.
  - apply ends_with_refl.
Qed.

End Strings.

(** ** The names of the fragments *)

Section Naming.


Lemma script_name_cases k script :
  (src script = "" ->
   script_name k script
   = String.append "script-" (String.append (JS.number_text k) ".ts")) /\
  (src script <> "" ->
   script_name k script = JS.substring (src script) (JS.lastIndexOf (src script) "/")).
Proof.
  unfold script_name; split.
  - intros ->; reflexivity.
  - intros Hne.
    destruct (String.eqb_spec
                (JS.substring (src script) (JS.lastIndexOf (src script) "/")) "")
      as [He|]; [|reflexivity].
    apply (proj1 (derived_name_empty (src script))) in He; contradiction.
Qed.

End Naming.




(** ** The response handler *)

(** Case analysis on the parts of the page the status helpers test. *)
Ltac page_cases d :=
  destruct d as [[?|] [?|] [?|] ? ?]; simpl; try reflexivity.

Section Responses.

Context `{HostAPI}.
Variable this : Compiler.

Implicit Types (d : Document) (file : TSFile) (output : TSOutput).

(** The status helpers inject nothing. *)
Lemma injected_setError text d : injected (setError text d) = injected d.
Proof. page_cases d. Qed.

Lemma injected_hideSpinner d : injected (hideSpinner d) = injected d.
Proof. page_cases d. Qed.

Lemma injected_hideStatus d : injected (hideStatus d) = injected d.
Proof. page_cases d. Qed.

Lemma injected_place_div style inner d :
  injected (place_div (Div style inner) d) = injected d.
Proof. page_cases d. Qed.

Lemma injected_addScript file d :
  injected (addScript this file d) = injected d ++ [script_element this file].
Proof.
  unfold injected, addScript, script_element; simpl.
  rewrite filter_app; reflexivity.
Qed.

Lemma for_of_addScript fs : forall d,
  for_of fs (fun file => effect (addScript this file)) d
  = (Normal tt, inject_all this fs d).
Proof.
  induction fs as [|file rest IH]; intros d; [reflexivity|].
  simpl; unfold bind, effect; apply IH.
Qed.

Lemma injected_inject_all fs : forall d,
  injected (inject_all this fs d) = injected d ++ map (script_element this) fs.
Proof.
  induction fs as [|file rest IH]; intros d; simpl.
  - rewrite app_nil_r; reflexivity.
  - unfold inject_all in *; simpl.
    rewrite IH, injected_addScript, <- app_assoc; reflexivity.
Qed.

(** [showOutput] on a report without [pre] element: nothing is touched
    before the throw. *)
Lemma showOutput_without_pre output d :
  querySelector_pre (JS.to_text (result output)) = None ->
  showOutput this output d = (Thrown "TypeError", d).
Proof. intros Hq; unfold showOutput; rewrite Hq; reflexivity. Qed.

(** [showOutput] on a report with a [pre] element. *)
Lemma showOutput_with_pre output inner d :
  querySelector_pre (JS.to_text (result output)) = Some inner ->
  let shown := place_div (Div "color: #FFF; background-color: #000;" inner) d in
  showOutput this output d
  = if JS.truthy (success output) then
      match files output with
      | Some fs => (Normal tt, inject_all this fs (hideSpinner (hideStatus shown)))
      | None => (Thrown "TypeError", hideSpinner (hideStatus shown))
      end
    else (Normal tt, hideSpinner (setError "Compilation failed." shown)).
Proof.
  intros Hq; unfold showOutput; rewrite Hq; simpl.
  destruct (JS.truthy (success output)); simpl; unfold bind, effect; simpl;
    [|reflexivity].
  destruct (files output) as [fs|]; [apply for_of_addScript | reflexivity].
Qed.

(** The handler catches whatever its [try] block throws. *)
Lemma compile_onload_normal parsed d :
  fst (compile_onload this parsed d) = Normal tt.
Proof.
  unfold compile_onload, try_catch.
  destruct (onload_try this parsed d) as [[[]|e] d']; reflexivity.
Qed.

Lemma onload_try_parsed response d :
  onload_try this (Some response) d
  = showOutput this (fst response) (after_fault_check response d).
Proof.
  unfold onload_try, after_fault_check, bind.
  destruct (JS.truthy (error (snd response))); reflexivity.
Qed.

Lemma generic_error_after_fault response d :
  hideSpinner (setError "A server error occurred." (after_fault_check response d))
  = hideSpinner (setError "A server error occurred." d).
Proof.
  unfold after_fault_check; destruct (JS.truthy (error (snd response)));
    [|reflexivity].
  page_cases d.
Qed.

End Responses.

Section Handling.

Context `{HostAPI}.
Variable this : Compiler.

Lemma status_inject_all fs : forall d,
  status (inject_all this fs d) = status d.
Proof.
  induction fs as [|file rest IH]; intros d; [reflexivity|].
  unfold inject_all in *; simpl; rewrite IH; reflexivity.
Qed.

(** The page after the handler, case by case. *)
Lemma compile_onload_parsed response d :
  exec (compile_onload this (Some response)) d
  = let d0 := after_fault_check response d in
    match querySelector_pre (JS.to_text (result (fst response))) with
    | None => hideSpinner (setError "A server error occurred." d)
    | Some inner =>
        let shown := place_div (Div "color: #FFF; background-color: #000;" inner) d0 in
        if JS.truthy (success (fst response)) then
          match files (fst response) with
          | Some fs => inject_all this fs (hideSpinner (hideStatus shown))
          | None => hideSpinner (setError "A server error occurred."
                                          (hideSpinner (hideStatus shown)))
          end
        else hideSpinner (setError "Compilation failed." shown)
    end.
Proof.
  unfold exec, compile_onload, try_catch; rewrite onload_try_parsed.
  destruct (querySelector_pre (JS.to_text (result (fst response))))
    as [inner|] eqn:Hq.
  - rewrite (showOutput_with_pre this _ inner _ Hq); simpl.
    destruct (JS.truthy (success (fst response))); [|reflexivity].
    destruct (files (fst response)); reflexivity.
  - rewrite (showOutput_without_pre this _ _ Hq); simpl.
    unfold bind, effect; simpl; apply generic_error_after_fault.
Qed.

(** Whatever the response, the status the handler leaves is one of
    three texts, none of them made from the response. *)
Lemma status_after_response response d s :
  status (exec (compile_onload this (Some response)) d) = Some s ->
  status_text s = "A server error occurred." \/
  status_text s = "Compilation failed." \/
  status_text s = window_status d.
Proof.
  rewrite compile_onload_parsed; simpl.
  unfold after_fault_check.
  destruct (querySelector_pre (JS.to_text (result (fst response)))) as [inner|].
  - destruct (JS.truthy (success (fst response))).
    + destruct (files (fst response)) as [fs|];
        rewrite ?status_inject_all;
        destruct (JS.truthy (error (snd response)));
        destruct d as [[?|] [?|] [?|] ? ?]; simpl; intros Hs;
        try discriminate; injection Hs as <-; simpl; auto.
    + destruct (JS.truthy (error (snd response)));
        destruct d as [[?|] [?|] [?|] ? ?]; simpl; intros Hs;
        try discriminate; injection Hs as <-; simpl; auto.
  - destruct d as [[?|] [?|] [?|] ? ?]; simpl; intros Hs;
      try discriminate; injection Hs as <-; simpl; auto.
Qed.

(** [inject_all] in one step. *)
Lemma inject_all_body fs : forall d,
  inject_all this fs d = with_body d (body d ++ map (script_element this) fs).
Proof.
  unfold inject_all.
  induction fs as [|file rest IH]; intros d; simpl.
  - rewrite app_nil_r; destruct d; reflexivity.
  - rewrite IH; unfold addScript, script_element, with_body; simpl.
    rewrite <- app_assoc; reflexivity.
Qed.

Lemma scripts_are_scripts fs :
  filter (fun node => match node with Script _ _ => true | _ => false end)
         (map (script_element this) fs)
  = map (script_element this) fs.
Proof. induction fs as [|file rest IH]; simpl; [|rewrite IH]; reflexivity. Qed.

(** The page after the handler, part by part, for a response whose report
    has a [pre] element. *)
Lemma handler_page_with_pre response inner d :
  querySelector_pre (JS.to_text (result (fst response))) = Some inner ->
  let d' := exec (compile_onload this (Some response)) d in
  status_container d'
  = option_map (fun c => c ++ [report_div inner]) (status_container d) /\
  body d'
  = match status_container d with Some _ => [] | None => [report_div inner] end
    ++ body d
    ++ (if JS.truthy (success (fst response))
        then match files (fst response) with
             | Some fs => map (script_element this) fs
             | None => []
             end
        else []) /\
  status d'
  = option_map
      (fun _ => if JS.truthy (success (fst response))
                then match files (fst response) with
                     | Some _ => hidden_status (window_status d)
                     | None => error_status "A server error occurred."
                     end
                else error_status "Compilation failed.")
      (status d) /\
  spinner d' = option_map (fun _ => "hidden") (spinner d) /\
  window_status d' = window_status d.
Proof.
  intros Hq; simpl; rewrite compile_onload_parsed, Hq; simpl.
  unfold after_fault_check, report_div, hidden_status, error_status.
  destruct (JS.truthy (error (snd response)));
    destruct (JS.truthy (success (fst response)));
    try destruct (files (fst response)) as [fs|];
    rewrite ?inject_all_body;
    destruct d as [[?|] [?|] [?|] ? ?]; simpl; rewrite ?app_nil_r;
    repeat split; reflexivity.
Qed.

(** The page after the handler, part by part, for a response that does
    not parse or whose report has no [pre] element. *)
Lemma handler_page_generic parsed d :
  report_of parsed = [] ->
  let d' := exec (compile_onload this parsed) d in
  status_container d' = status_container d /\
  body d' = body d /\
  status d' = option_map (fun _ => error_status "A server error occurred.") (status d) /\
  spinner d' = option_map (fun _ => "hidden") (spinner d) /\
  window_status d' = window_status d.
Proof.
  intros Hreport; simpl.
  assert (Hpage : exec (compile_onload this parsed) d
                  = hideSpinner (setError "A server error occurred." d)).
  { destruct parsed as [response|]; [|reflexivity].
    rewrite compile_onload_parsed; simpl in *.
    destruct (querySelector_pre (JS.to_text (result (fst response))));
      [discriminate | reflexivity]. }
  rewrite Hpage; unfold error_status.
  destruct d as [[?|] [?|] [?|] ? ?]; simpl; repeat split; reflexivity.
Qed.

End Handling.

(** C7, on the response [{error: true, reason: "overloaded"}] and on a
    fault that carries a compilation.  The handler writes the reason and
    goes on to [showOutput]: for the first response the report has no
    [pre] element, the throw is caught and the generic message replaces
    the reason; for the second the status is hidden and the artifact is
    injected. *)
Theorem fault_reason_is_overwritten :
  let handler := @compile_onload Sample.host Sample.compiler in
  status (after_fault_check Sample.server_fault Sample.doc)
  = Some {| status_text := "A server error occurred: <br/> overloaded";
            status_class := "header error" |} /\
  status (exec (handler (Some Sample.server_fault)) Sample.doc)
  = Some {| status_text := "A server error occurred.";
            status_class := "header error" |} /\
  status (exec (handler (Some Sample.fault_with_files)) Sample.doc)
  = Some {| status_text := ""; status_class := "header hidden" |} /\
  injected (exec (handler (Some Sample.fault_with_files)) Sample.doc)
  = [Script "text/javascript" "run()"].
Proof. repeat split; reflexivity. Qed.

(** C8 as stated fails: for a successful compilation whose report has no
    [pre] element nothing is rendered, whatever element one looks for: the
    status container and the body are as they were, and none of the files
    is injected. *)
Lemma report_without_pre_is_not_rendered :
  let d' := exec (@compile_onload Sample.host Sample.compiler
                    (Some Sample.success_without_pre)) Sample.doc in
  (forall inner, ~ diagnostic_rendered inner Sample.doc d') /\
  status_container d' = status_container Sample.doc /\
  body d' = body Sample.doc /\
  injected d' = [].
Proof.
  repeat split; try reflexivity.
  intros inner Hr; unfold diagnostic_rendered in Hr; simpl in Hr.
  discriminate Hr.
Qed.

(** C8, amended.  For every parsed response whose report has a [pre]
    element [inner], the handler renders that element: in its [div] it is
    the last node of the status container, or the first node of the body
    when the page has no status container.  When [success] is not true,
    the status element, where the page has one, then reads
    [Compilation failed.] with the class of errors, the spinner is hidden,
    the body gets no other node, and nothing is injected; when [success] is
    true and [files] is there, the files are injected, each once and in
    their order. *)
Theorem report_with_pre_is_rendered
    (host : HostAPI) this response inner d :
  querySelector_pre (JS.to_text (result (fst response))) = Some inner ->
  let d' := exec (compile_onload this (Some response)) d in
  diagnostic_rendered inner d d' /\
  (JS.truthy (success (fst response)) = false ->
   injected d' = injected d /\
   body d' = match status_container d with
             | Some _ => body d
             | None => report_div inner :: body d
             end /\
   status d' = option_map (fun _ => error_status "Compilation failed.") (status d) /\
   spinner d' = option_map (fun _ => "hidden") (spinner d)) /\
  (forall fs,
     JS.truthy (success (fst response)) = true ->
     files (fst response) = Some fs ->
     injected d' = injected d ++ map (script_element this) fs).
Proof.
  intros Hq d'; subst d'.
  destruct (handler_page_with_pre this response inner d Hq)
    as (Hc & Hb & Hs & Hp & _).
  split; [|split].
  - unfold diagnostic_rendered; rewrite Hc, Hb.
    destruct (status_container d); [reflexivity|].
    split; [reflexivity|]; eexists; reflexivity.
  - intros Hfailed; rewrite Hfailed in Hb, Hs.
    split; [|split; [|split]]; [| |exact Hs|exact Hp].
    + unfold injected; rewrite Hb, app_nil_r.
      destruct (status_container d); reflexivity.
    + rewrite Hb, app_nil_r; destruct (status_container d); reflexivity.
  - intros fs Hok Hfiles; rewrite Hok, Hfiles in Hb.
    unfold injected; rewrite Hb, !filter_app.
    rewrite scripts_are_scripts; destruct (status_container d); reflexivity.
Qed.

Lemma report_with_pre_is_rendered_witness :
  let d' := exec (@compile_onload Sample.host Sample.compiler
                    (Some Sample.compile_success)) Sample.doc in
  @querySelector_pre Sample.host "<pre>ok</pre>" = Some (ParsedPre "<pre>ok</pre>") /\
  status_container d' = Some [report_div (ParsedPre "<pre>ok</pre>")] /\
  injected d' = [Script "text/javascript" "b()"; Script "text/plain" "{}"].
Proof.
  split; [reflexivity|].
  destruct (report_with_pre_is_rendered Sample.host Sample.compiler
              Sample.compile_success (ParsedPre "<pre>ok</pre>") Sample.doc eq_refl)
    as (Hrendered & _ & Hfiles).
  split; [exact Hrendered | exact (Hfiles _ eq_refl eq_refl)].
Defined.

(** C9, on a successful compilation with an artifact named [ab].  The
    name does not end in [.js], yet the test of [addScript] holds for it
    and the artifact is injected with the type of scripts. *)
Theorem two_character_name_runs_as_script :
  let file := {| name := "ab"; content := "not a script" |} in
  spec_ends_with ".js" (name file) = false /\
  js_test file = true /\
  injected (exec (@compile_onload Sample.host Sample.compiler
                    (Some Sample.short_name_success)) Sample.doc)
  = [Script (outputJsType Sample.compiler) "not a script"].
Proof. repeat split; reflexivity. Qed.

(** C10.  For every response that parses and whose report has no [pre]
    element, [showOutput] throws before it touches the page and the
    handler ends as it does for a response that does not parse: the
    status element, where the page has one, reads
    [A server error occurred.] with the class of errors, the spinner is
    hidden, the status container and the body are as they were, and
    nothing is injected, whatever [success] and [files] are. *)
Theorem missing_pre_is_a_server_error (host : HostAPI) this response d :
  querySelector_pre (JS.to_text (result (fst response))) = None ->
  let d' := exec (compile_onload this (Some response)) d in
  showOutput this (fst response) (after_fault_check response d)
  = (Thrown "TypeError", after_fault_check response d) /\
  compile_onload this (Some response) d
  = (Normal tt, hideSpinner (setError "A server error occurred." d)) /\
  compile_onload this (Some response) d = compile_onload this None d /\
  injected d' = injected d /\
  status d' = option_map (fun _ => error_status "A server error occurred.") (status d) /\
  spinner d' = option_map (fun _ => "hidden") (spinner d) /\
  status_container d' = status_container d /\
  body d' = body d /\
  window_status d' = window_status d.
Proof.
  intros Hq d'; subst d'.
  assert (Hreport : report_of (Some response) = []) by (simpl; rewrite Hq; reflexivity).
  destruct (handler_page_generic this (Some response) d Hreport)
    as (Hc & Hb & Hs & Hp & Hw).
  assert (Hpage : exec (compile_onload this (Some response)) d
                  = hideSpinner (setError "A server error occurred." d)).
  { rewrite compile_onload_parsed, Hq; reflexivity. }
  assert (Hwhole : compile_onload this (Some response) d
                   = (Normal tt, hideSpinner (setError "A server error occurred." d))).
  { rewrite <- Hpage; unfold exec.
    rewrite (surjective_pairing (compile_onload this (Some response) d)) at 1.
    rewrite compile_onload_normal; reflexivity. }
  split; [apply showOutput_without_pre, Hq|].
  split; [exact Hwhole|].
  split; [rewrite Hwhole; reflexivity|].
  split; [unfold injected; rewrite Hb; reflexivity|].
  repeat split; assumption.
Qed.

Lemma missing_pre_is_a_server_error_witness :
  let d' := exec (@compile_onload Sample.host Sample.compiler
                    (Some Sample.success_without_pre)) Sample.doc in
  @querySelector_pre Sample.host "Compiled 1 file." = None /\
  status d' = Some (error_status "A server error occurred.") /\
  body d' = [].
Proof.
  split; [reflexivity|].
  destruct (missing_pre_is_a_server_error Sample.host Sample.compiler
              Sample.success_without_pre Sample.doc eq_refl)
    as (_ & _ & _ & _ & Hstatus & _ & _ & Hbody & _).
  split; [exact Hstatus | exact Hbody].
Defined.

(** ** Whole cycles of [compile] *)

(** One inline fragment, compiled to two artifacts: the script and its
    map are injected once each, in the order of the response, each with
    the type of its kind. *)
Example cycle_injects_in_response_order :
  injected (@compile Sample.host Sample.compiler [Sample.inline_script] None []
              (Answered (Some Sample.compile_success)) Sample.doc)
  = [Script "text/javascript" "b()"; Script "text/plain" "{}"].
Proof. reflexivity. Qed.

(** The order is that of the response, not that of the names. *)
Example cycle_keeps_unsorted_order :
  injected (@compile Sample.host Sample.compiler [Sample.inline_script] None []
              (Answered (Some Sample.unordered_success)) Sample.doc)
  = [Script "text/javascript" "b()"; Script "text/javascript" "a()"].
Proof. reflexivity. Qed.

(** A compilation that failed: its report is on the page, the status says
    so, nothing is injected. *)
Example cycle_of_a_failed_compilation :
  let d' := @compile Sample.host Sample.compiler [Sample.inline_script] None []
              (Answered (Some Sample.compile_failure)) Sample.doc in
  status_container d'
  = Some [NotePre (Some "error")
            "TypeScript config not found... compilation is very unlikely to succeed.";
          Div "color: #FFF; background-color: #000;" (ParsedPre "<pre>error</pre>")] /\
  status d' = Some {| status_text := "Compilation failed.";
                      status_class := "header error" |} /\
  injected d' = [].
Proof. repeat split; reflexivity. Qed.

(** A response that does not parse and a failure of the transport end
    alike. *)
Example cycle_without_an_answer :
  @compile Sample.host Sample.compiler [Sample.inline_script] None []
    (Answered None) Sample.doc
  = @compile Sample.host Sample.compiler [Sample.inline_script] None []
      NetworkError Sample.doc.
Proof. reflexivity. Qed.

(** While a fragment has not arrived the program is not sent, so an answer
    cannot arrive either: the page stays as [readScripts] left it. *)
Example cycle_waits_for_the_fragments :
  @compile Sample.host Sample.compiler [Sample.remote_script] None [(0, Failed)]
    (Answered (Some Sample.compile_success)) Sample.doc
  = page (readScripts [Sample.remote_script] None Sample.doc).
Proof. reflexivity. Qed.

(** * Further properties of the code *)

(** ** What [readScripts] holds when it returns *)

Section Contents.

Implicit Types (st : Reader) (script : HTMLScriptElement).

Lemma readScript_contents file_name script st :
  read_files (readScript file_name script st)
  = read_files st
    ++ map file_of (filter is_inline_entry [(file_name, script)]) /\
  xhrs (readScript file_name script st)
  = xhrs st ++ request_of (file_name, script).
Proof.
  unfold readScript, request_of, is_inline_entry, is_remote; simpl.
  destruct (getAttribute_src script); simpl; rewrite ?app_nil_r; auto.
Qed.

Lemma read_loop_contents scripts : forall k st,
  read_files (read_loop scripts k st)
  = read_files st
    ++ map file_of (filter is_inline_entry (combine (names_from k scripts) scripts)) /\
  xhrs (read_loop scripts k st)
  = xhrs st ++ flat_map request_of (combine (names_from k scripts) scripts).
Proof.
  induction scripts as [|script rest IH]; intros k st; simpl.
  - rewrite !app_nil_r; auto.
  - destruct (IH (S k) (readScript (script_name k script) script st)) as [Hf Hx].
    destruct (readScript_contents (script_name k script) script st) as [Hf1 Hx1].
    rewrite Hf, Hx, Hf1, Hx1, <- !app_assoc; split; [|reflexivity].
    f_equal; simpl.
    destruct (is_inline_entry (script_name k script, script)); reflexivity.
Qed.

Lemma combine_app {A B} (a1 a2 : list A) (b1 b2 : list B) :
  List.length a1 = List.length b1 ->
  combine (a1 ++ a2) (b1 ++ b2) = combine a1 b1 ++ combine a2 b2.
Proof.
  revert b1; induction a1 as [|x a1 IH]; intros [|y b1] Hlen; simpl in *;
    try discriminate; [reflexivity|].
  rewrite IH by lia; reflexivity.
Qed.

Lemma named_enumeration_split scripts config d :
  named_enumeration scripts config d
  = combine (names_from 0 scripts) scripts
    ++ match config with Some c => [("tsconfig.json", c)] | None => [] end.
Proof.
  unfold named_enumeration, enumeration; rewrite assigned_names_enumerate.
  rewrite combine_app by apply names_from_length.
  destruct config; reflexivity.
Qed.

Lemma enumerate_contents scripts config d :
  read_files (enumerate scripts config d)
  = map file_of (filter is_inline_entry (named_enumeration scripts config d)) /\
  xhrs (enumerate scripts config d)
  = flat_map request_of (named_enumeration scripts config d).
Proof.
  rewrite named_enumeration_split, filter_app, map_app, flat_map_app.
  unfold enumerate; destruct config as [c|].
  - match goal with |- context [readScript ?nm c ?s] =>
      destruct (readScript_contents nm c s) as [Hf Hx] end.
    rewrite Hf, Hx.
    match goal with |- context [read_loop scripts 0 ?s] =>
      destruct (read_loop_contents scripts 0 s) as [Hf' Hx'] end.
    rewrite Hf', Hx'; simpl; rewrite app_nil_r; auto.
  - match goal with |- context [read_loop scripts 0 ?s] =>
      destruct (read_loop_contents scripts 0 s) as [Hf' Hx'] end.
    rewrite Hf', Hx'; simpl; rewrite !app_nil_r; auto.
Qed.

Lemma readScripts_contents scripts config d :
  read_files (readScripts scripts config d)
  = map file_of (filter is_inline_entry (named_enumeration scripts config d)) /\
  xhrs (readScripts scripts config d)
  = map as_sent (flat_map request_of (named_enumeration scripts config d)).
Proof.
  unfold readScripts.
  destruct (completion_check_frame (dispatch (enumerate scripts config d)))
    as (_ & Hf & Hx & _).
  destruct (dispatch_spec (enumerate scripts config d))
    as (_ & Hf' & _ & _ & Hx' & _).
  destruct (enumerate_contents scripts config d) as [Hf0 Hx0].
  rewrite Hf, Hx, Hf', Hx', Hf0, Hx0; auto.
Qed.

End Contents.

(** X1.  When [readScripts] returns, the shared array holds exactly the
    inline fragments of the enumeration, in the order of the enumeration,
    each under the name it was given and with its inline text. *)
Theorem inline_fragments_are_read_at_once scripts config d :
  read_files (readScripts scripts config d)
  = map file_of (filter is_inline_entry (named_enumeration scripts config d)).
Proof. apply readScripts_contents. Qed.

(** X2.  When [readScripts] returns, the queue holds one request per
    remote fragment, in the order of the enumeration; each goes to the
    value of the [src] attribute, carries the name the fragment was given,
    and has been sent. *)
Theorem remote_fragments_are_requested scripts config d :
  xhrs (readScripts scripts config d)
  = map as_sent (flat_map request_of (named_enumeration scripts config d)).
Proof. apply readScripts_contents. Qed.

(** ** What the events bring *)

Section Arrivals.

Implicit Types (st : Reader).

Lemma deliver_arrival index r st :
  read_files (deliver index r st) = read_files st ++ arrival (xhrs st) (index, r) /\
  n (waitingXHRsRef (deliver index r st))
  = (n (waitingXHRsRef st) - Z.of_nat (List.length (arrival (xhrs st) (index, r))))%Z /\
  xhrs (deliver index r st) = xhrs st /\
  page (deliver index r st) = page st.
Proof.
  unfold deliver, arrival; simpl.
  destruct (nth_error (xhrs st) index) as [x|];
    [|rewrite app_nil_r; simpl; repeat split; lia].
  destruct r as [http_status text|];
    [|destruct (sent x); rewrite app_nil_r; simpl; repeat split; lia].
  destruct (sent x); [|rewrite app_nil_r; simpl; repeat split; lia].
  destruct (xhr_onload_spec (onload_name x) text st)
    as (Hn & _ & Hx & Hp & Hf & _).
  rewrite Hn, Hx, Hp, Hf; simpl; repeat split; lia.
Qed.

Lemma run_arrivals events : forall st,
  read_files (run events st) = read_files st ++ arrivals (xhrs st) events /\
  n (waitingXHRsRef (run events st))
  = (n (waitingXHRsRef st) - Z.of_nat (List.length (arrivals (xhrs st) events)))%Z /\
  xhrs (run events st) = xhrs st /\
  page (run events st) = page st.
Proof.
  unfold arrivals.
  induction events as [|[index r] rest IH]; intros st; simpl.
  - rewrite app_nil_r; repeat split; lia.
  - destruct (deliver_arrival index r st) as (Hf1 & Hn1 & Hx1 & Hp1).
    destruct (IH (deliver index r st)) as (Hf & Hn & Hx & Hp).
    rewrite Hf, Hn, Hx, Hp, Hf1, Hn1, Hx1, Hp1, <- app_assoc, length_app.
    repeat split; lia.
Qed.

End Arrivals.

(** X3.  Whatever events arrive after [readScripts] returned, and in
    whatever order, the shared array is the inline fragments followed by
    one file per [load] of a request, in the order of the loads; an
    [error] event and an event for no request add nothing. *)
Theorem files_are_in_arrival_order scripts config d events :
  let st := readScripts scripts config d in
  read_files (run events st)
  = map file_of (filter is_inline_entry (named_enumeration scripts config d))
    ++ arrivals (xhrs st) events.
Proof.
  simpl.
  destruct (run_arrivals events (readScripts scripts config d)) as (Hf & _).
  destruct (readScripts_contents scripts config d) as [Hf0 _].
  rewrite Hf, Hf0; reflexivity.
Qed.

(** ** The callback under failures *)

Section Safety.

Implicit Types (st : Reader).

Lemma brings_file_spec requests ev :
  brings_file requests ev = true ->
  exists x http_status text,
    nth_error requests (fst ev) = Some x /\ sent x = true /\
    snd ev = Loaded http_status text /\
    arrival requests ev = [{| name := onload_name x; content := text |}].
Proof.
  unfold brings_file, arrival.
  destruct (nth_error requests (fst ev)) as [x|]; [|discriminate].
  destruct (snd ev) as [http_status text|]; [|discriminate].
  destruct (sent x) eqn:Hs; [|discriminate].
  intros _; exists x, http_status, text; rewrite Hs; repeat split; reflexivity.
Qed.

Lemma deliver_nothing index r st :
  brings_file (xhrs st) (index, r) = false -> deliver index r st = st.
Proof.
  unfold brings_file, arrival, deliver; simpl.
  destruct (nth_error (xhrs st) index) as [x|]; [|reflexivity].
  destruct r; destruct (sent x); try reflexivity; discriminate.
Qed.

(** The events that bring nothing can be left out. *)
Lemma run_filter events : forall st,
  run events st = run (filter (brings_file (xhrs st)) events) st.
Proof.
  induction events as [|[index r] rest IH]; intros st; [reflexivity|].
  simpl; destruct (brings_file (xhrs st) (index, r)) eqn:Hb; simpl.
  - destruct (deliver_arrival index r st) as (_ & _ & Hx & _).
    rewrite (IH (deliver index r st)), Hx; reflexivity.
  - rewrite (deliver_nothing index r st Hb); apply IH.
Qed.

Lemma arrivals_filter requests events :
  arrivals requests events
  = arrivals requests (filter (brings_file requests) events) /\
  List.length (arrivals requests events)
  = List.length (filter (brings_file requests) events).
Proof.
  unfold arrivals; induction events as [|ev rest [IH1 IH2]]; [split; reflexivity|].
  simpl; destruct (brings_file requests ev) eqn:Hb; simpl.
  - destruct (brings_file_spec requests ev Hb) as (x & hs & text & _ & _ & _ & Ha).
    rewrite Ha, <- IH1; simpl; rewrite IH2; auto.
  - unfold brings_file in Hb.
    destruct (arrival requests ev); [simpl; auto | discriminate].
Qed.

Lemma NoDup_map_filter {A B} (f : A -> B) (p : A -> bool) l :
  NoDup (map f l) -> NoDup (map f (filter p l)).
Proof.
  induction l as [|a l IH]; simpl; intros Hnd; [constructor|].
  inversion Hnd as [|b bs Hnotin Hrest]; subst.
  destruct (p a); simpl; [|auto].
  constructor; [|auto].
  intros Hin; apply Hnotin.
  apply in_map_iff in Hin; destruct Hin as (a' & Heq & Hin').
  apply filter_In in Hin'; rewrite <- Heq; apply in_map; tauto.
Qed.

(** The heart of the matter: with no request ending twice, the loads are
    at most as many as the requests, and the callback has run, once and
    with the files of the end, exactly when they are as many. *)
Lemma callbacks_by_arrivals scripts config d events :
  NoDup (map fst events) ->
  let st := readScripts scripts config d in
  let R := remote_count (enumeration scripts config) in
  List.length (arrivals (xhrs st) events) <= R /\
  callbacks (run events st)
  = if Nat.eqb (List.length (arrivals (xhrs st) events)) R
    then [{| program_files := read_files (run events st) |}]
    else [].
Proof.
  intros Hnd st R; subst st R.
  destruct (readScripts_returns scripts config d)
    as (Hn & Hcalled & Hxs & Hsent & _ & Hcb).
  set (st := readScripts scripts config d) in *.
  set (R := remote_count (enumeration scripts config)) in *.
  destruct (arrivals_filter (xhrs st) events) as [_ Hlen].
  rewrite (run_filter events st), Hlen.
  set (eff := filter (brings_file (xhrs st)) events) in *.
  assert (Heff : Forall (fun ev => fst ev < List.length (xhrs st) /\ snd ev <> Failed) eff).
  { apply Forall_forall; intros ev Hin.
    apply filter_In in Hin; destruct Hin as [_ Hb].
    destruct (brings_file_spec _ _ Hb) as (x & hs & text & Hx & _ & Hr & _).
    split; [apply nth_error_Some; congruence | rewrite Hr; discriminate]. }
  assert (Hle : List.length eff <= R).
  { rewrite <- (length_map fst eff).
    apply Nat.le_trans with (List.length (seq 0 R)); [|rewrite length_seq; lia].
    apply NoDup_incl_length; [apply NoDup_map_filter, Hnd|].
    intros i Hi; apply in_map_iff in Hi; destruct Hi as (ev & <- & Hin).
    rewrite Forall_forall in Heff; destruct (Heff ev Hin) as [Hlt _].
    apply in_seq; lia. }
  split; [exact Hle|].
  destruct (run_loads eff st Hcalled Hsent Heff) as (_ & _ & Hbefore & Hat).
  destruct (Nat.eqb_spec (List.length eff) R) as [Heq|Hne].
  - destruct eff as [|ev rest] eqn:He.
    + simpl in *; rewrite Hcb, <- Heq; reflexivity.
    + rewrite Hat; [|discriminate|lia].
      rewrite Hcb; destruct (Nat.eqb_spec R 0); [simpl in Heq; lia | reflexivity].
  - rewrite Hbefore by lia.
    rewrite Hcb; destruct (Nat.eqb_spec R 0); [lia | reflexivity].
Qed.

(** The page of the reader: [readScripts] writes the note about a missing
    configuration and nothing else, and no event writes to the page. *)
Lemma page_of_run scripts config d events :
  page (run events (readScripts scripts config d))
  = match config with
    | None =>
        addNote "TypeScript config not found... compilation is very unlikely to succeed."
                true d
    | Some _ => d
    end.
Proof.
  destruct (run_arrivals events (readScripts scripts config d)) as (_ & _ & _ & Hp).
  rewrite Hp; unfold readScripts.
  destruct (completion_check_frame (dispatch (enumerate scripts config d)))
    as (_ & _ & _ & Hp1).
  destruct (dispatch_spec (enumerate scripts config d)) as (_ & _ & _ & Hp2 & _).
  rewrite Hp1, Hp2; unfold enumerate.
  assert (Hloop : forall d0, page (read_loop scripts 0 (initial_reader d0)) = d0).
  { intros d0.
    apply (read_loop_preserves (fun st => page st = d0)); [|reflexivity].
    intros nm script st Hst.
    destruct (readScript_frame nm script st) as (_ & _ & Hp'); congruence. }
  destruct config as [c|]; [|apply Hloop].
  match goal with |- context [readScript ?nm c ?s] =>
    destruct (readScript_frame nm c s) as (_ & _ & Hp') end.
  rewrite Hp'; apply Hloop.
Qed.

(** The same, part by part. *)
Lemma page_parts_of_run scripts config d events :
  let d' := page (run events (readScripts scripts config d)) in
  status_container d'
  = option_map (fun c => c ++ match config with
                              | None => [missing_config_note]
                              | Some _ => []
                              end) (status_container d) /\
  status d' = status d /\
  spinner d' = spinner d /\
  body d' = body d /\
  window_status d' = window_status d.
Proof.
  simpl; rewrite page_of_run; unfold missing_config_note.
  destruct config; destruct d as [? ? [?|] ? ?]; simpl; rewrite ?app_nil_r;
    repeat split; reflexivity.
Qed.

End Safety.

(** X4.  If no request ends twice, then whatever ends the requests have
    (loads, [error] events, or none yet), the callback is never invoked
    with a part of the program and never twice: it has run exactly when
    every request has loaded, and then once, with the files of the end,
    which are as many as the enumeration has fragments. *)
Theorem callback_never_gets_a_partial_program scripts config d events :
  NoDup (map fst events) ->
  let st := readScripts scripts config d in
  let loads := List.length (arrivals (xhrs st) events) in
  loads <= remote_count (enumeration scripts config) /\
  List.length (read_files (run events st))
  = inline_count (enumeration scripts config) + loads /\
  callbacks (run events st)
  = if Nat.eqb loads (remote_count (enumeration scripts config))
    then [{| program_files := read_files (run events st) |}]
    else [].
Proof.
  intros Hnd st loads; subst st loads.
  destruct (callbacks_by_arrivals scripts config d events Hnd) as [Hle Hcb].
  destruct (run_arrivals events (readScripts scripts config d)) as (Hf & _).
  destruct (readScripts_returns scripts config d) as (_ & _ & _ & _ & Hfiles & _).
  repeat split; [exact Hle | | exact Hcb].
  rewrite Hf, length_app, Hfiles; reflexivity.
Qed.

Lemma callback_never_gets_a_partial_program_witness :
  let scripts := [Sample.remote_script; Sample.inline_script; Sample.directory_script] in
  let events := [(1, Loaded 200 "late"); (0, Failed); (7, Loaded 200 "stray")] in
  NoDup (map fst events) /\
  callbacks (run events (readScripts scripts None Sample.doc)) = [].
Proof.
  assert (Hnd : NoDup (map fst [(1, Loaded 200 "late"); (0, Failed);
                                 (7, Loaded 200 "stray")])).
  { simpl; repeat constructor; simpl; intuition discriminate. }
  split; [exact Hnd|].
  destruct (callback_never_gets_a_partial_program
              [Sample.remote_script; Sample.inline_script; Sample.directory_script]
              None Sample.doc _ Hnd) as (_ & _ & Hcb).
  exact Hcb.
Defined.

(** X5.  [readScripts] changes the page in one way only.  When there is no
    configuration script and the page has a status container, one note
    with the class of errors and the text that the configuration was not
    found becomes the last node of the container; with a configuration
    script, or without a container, the container is as it was.  The
    status element, the spinner, the body and the global [status] are
    untouched, and no event of the requests changes any of this. *)
Theorem readScripts_only_adds_the_note scripts config d events :
  let d' := page (run events (readScripts scripts config d)) in
  status_container d'
  = option_map
      (fun c => c ++ match config with
                     | None =>
                         [NotePre (Some "error")
                            "TypeScript config not found... compilation is very unlikely to succeed."]
                     | Some _ => []
                     end) (status_container d) /\
  status d' = status d /\
  spinner d' = spinner d /\
  body d' = body d /\
  window_status d' = window_status d.
Proof. apply page_parts_of_run. Qed.

(** ** Every fragment, once *)

Section Census.

Lemma map_fst_combine {A B} (a : list A) : forall (b : list B),
  List.length a = List.length b -> map fst (combine a b) = a.
Proof.
  induction a as [|x a IH]; intros [|y b] Hlen; simpl in *; try discriminate;
    [reflexivity | rewrite IH by lia; reflexivity].
Qed.

Lemma nth_seq_all {A} (l : list A) (dflt : A) :
  map (fun i => nth i l dflt) (seq 0 (List.length l)) = l.
Proof.
  induction l as [|a l IH]; [reflexivity|].
  simpl; rewrite <- seq_shift, map_map; simpl; rewrite IH; reflexivity.
Qed.

(** The names of the inline files and of the requests are together the
    names of the enumeration. *)
Lemma names_partition (l : list (string * HTMLScriptElement)) :
  Permutation (map name (map file_of (filter is_inline_entry l))
               ++ map onload_name (map as_sent (flat_map request_of l)))
              (map fst l).
Proof.
  induction l as [|[nm script] l IH]; [constructor|].
  simpl; unfold is_inline_entry, request_of, is_remote; simpl.
  destruct (getAttribute_src script); simpl.
  - apply Permutation_sym, Permutation_cons_app, Permutation_sym, IH.
  - constructor; exact IH.
Qed.

(** The names of the files that valid loads bring. *)
Lemma arrivals_names requests events :
  Forall (fun x => sent x = true) requests ->
  Forall (fun ev => fst ev < List.length requests /\ snd ev <> Failed) events ->
  map name (arrivals requests events)
  = map (request_name requests) (map fst events).
Proof.
  intros Hsent; unfold arrivals.
  induction 1 as [|[index r] rest [Hlt Hr] _ IH]; [reflexivity|].
  simpl in *; rewrite map_app, IH; f_equal.
  unfold arrival, request_name; simpl.
  destruct (nth_error requests index) as [x|] eqn:Hx;
    [|apply nth_error_None in Hx; lia].
  destruct r as [hs text|]; [|contradiction].
  assert (Hsx : sent x = true).
  { rewrite Forall_forall in Hsent; apply Hsent; eapply nth_error_In; eauto. }
  rewrite Hsx; simpl; f_equal.
  symmetry; apply nth_error_nth.
  rewrite nth_error_map, Hx; reflexivity.
Qed.

End Census.

(** X6.  When every fetch has completed, the program holds every fragment
    of the enumeration exactly once under the name it was given: the names
    of its files are the names given out, up to their order. *)
Theorem every_fragment_is_in_the_program scripts config d events :
  every_fetch_completes events (remote_count (enumeration scripts config)) ->
  Permutation (map name (read_files (run events (readScripts scripts config d))))
              (assigned_names (enumerate scripts config d)).
Proof.
  intros Hcomplete.
  destruct Hcomplete as [Hperm Hloads].
  destruct (completes_length events _ (conj Hperm Hloads)) as [_ Hvalid].
  destruct (readScripts_returns scripts config d) as (_ & _ & Hxs & Hsent & _).
  destruct (run_arrivals events (readScripts scripts config d)) as (Hf & _).
  destruct (readScripts_contents scripts config d) as [Hf0 Hx0].
  rewrite <- Hxs in Hvalid, Hperm.
  rewrite Hf, map_app, (arrivals_names _ _ Hsent Hvalid).
  eapply Permutation_trans.
  { apply Permutation_app_head, Permutation_map, Hperm. }
  unfold request_name.
  rewrite <- (length_map onload_name), nth_seq_all, Hf0, Hx0.
  eapply Permutation_trans; [apply names_partition|].
  unfold named_enumeration; rewrite map_fst_combine; [apply Permutation_refl|].
  rewrite assigned_names_enumerate; unfold enumeration.
  rewrite !length_app, names_from_length; destruct config; reflexivity.
Qed.

Lemma every_fragment_is_in_the_program_witness :
  let scripts := [Sample.remote_script; Sample.inline_script] in
  let config := Some Sample.config_script in
  let events := [(1, Loaded 200 "{}"); (0, Loaded 200 "export {}")] in
  every_fetch_completes events (remote_count (enumeration scripts config)) /\
  Permutation ["script-1.ts"; "tsconfig.json"; "/util.ts"]
              ["/util.ts"; "script-1.ts"; "tsconfig.json"].
Proof.
  assert (Hc : every_fetch_completes
                 [(1, Loaded 200 "{}"); (0, Loaded 200 "export {}")]
                 (remote_count (enumeration
                    [Sample.remote_script; Sample.inline_script]
                    (Some Sample.config_script)))).
  { split; [exact (perm_swap 0 1 []) | repeat constructor; discriminate]. }
  split; [exact Hc|].
  exact (every_fragment_is_in_the_program
           [Sample.remote_script; Sample.inline_script]
           (Some Sample.config_script) Sample.doc _ Hc).
Defined.

(** ** Whole cycles *)

Section Cycles.

Context `{HostAPI}.
Variable this : Compiler.

Lemma injected_addNote note is_error d :
  injected (addNote note is_error d) = injected d.
Proof. destruct d as [? ? [?|] ? ?]; reflexivity. Qed.

Lemma status_addNote note is_error d :
  status (addNote note is_error d) = status d /\
  window_status (addNote note is_error d) = window_status d.
Proof. destruct d as [? ? [?|] ? ?]; split; reflexivity. Qed.

(** The callback has run when every fetch has completed. *)
Lemma callbacks_when_complete scripts config d events :
  every_fetch_completes events (remote_count (enumeration scripts config)) ->
  callbacks (run events (readScripts scripts config d))
  = [{| program_files := read_files (run events (readScripts scripts config d)) |}].
Proof.
  intros Hcomplete; apply completes_length in Hcomplete.
  destruct Hcomplete as [Hlen Hevents].
  destruct (readScripts_returns scripts config d)
    as (Hn & Hcalled & Hxs & Hsent & _ & Hcb).
  rewrite <- Hxs in Hevents.
  destruct (run_loads events _ Hcalled Hsent Hevents) as (_ & _ & _ & Hat).
  destruct events as [|ev rest].
  - simpl in *; rewrite <- Hlen in Hcb; exact Hcb.
  - rewrite Hat; [|discriminate|lia].
    rewrite Hcb, <- Hlen; reflexivity.
Qed.

End Cycles.

(** X7.  While a request of a fragment has not loaded, [compile] never
    sends the program, so no answer is handled: whatever the server would
    answer, the page stays as [readScripts] left it, with the status and
    the spinner as they were. *)
Theorem compile_waits_for_every_fragment
    (host : HostAPI) this scripts config fetches answer d :
  NoDup (map fst fetches) ->
  List.length (arrivals (xhrs (readScripts scripts config d)) fetches)
  <> remote_count (enumeration scripts config) ->
  compile this scripts config fetches answer d
  = match config with
    | None =>
        addNote "TypeScript config not found... compilation is very unlikely to succeed."
                true d
    | Some _ => d
    end.
Proof.
  intros Hnd Hne; unfold compile.
  destruct (callbacks_by_arrivals scripts config d fetches Hnd) as [_ Hcb].
  rewrite Hcb.
  destruct (Nat.eqb_spec
              (List.length (arrivals (xhrs (readScripts scripts config d)) fetches))
              (remote_count (enumeration scripts config))); [contradiction|].
  apply page_of_run.
Qed.

Lemma compile_waits_for_every_fragment_witness :
  let scripts := [Sample.remote_script; Sample.directory_script] in
  let fetches := [(1, Loaded 200 "x"); (0, Failed)] in
  NoDup (map fst fetches) /\
  compile (H := Sample.host) Sample.compiler scripts (Some Sample.config_script)
    fetches (Answered (Some Sample.compile_success)) Sample.doc
  = Sample.doc.
Proof.
  assert (Hnd : NoDup (map fst [(1, Loaded 200 "x"); (0, Failed)])).
  { simpl; repeat constructor; simpl; intuition discriminate. }
  split; [exact Hnd|].
  apply (compile_waits_for_every_fragment Sample.host Sample.compiler
           [Sample.remote_script; Sample.directory_script]
           (Some Sample.config_script) _ _ Sample.doc Hnd).
  vm_compute; discriminate.
Defined.

(** X8.  A whole cycle that succeeds: when every fetch has completed and
    the server answers with a report that has a [pre] element [inner],
    [success] and [files], that element, in its [div], is the last node of
    the status container, after the nodes the page had and the note of
    [readScripts], if any (or the first node of the body when the page has
    no container); the status element, where the page has one, is hidden
    with the text of the global [status]; the spinner is hidden; and the
    files are injected after the scripts the body held, each once, in the
    order of the response. *)
Theorem cycle_of_a_successful_compilation
    (host : HostAPI) this scripts config fetches response inner fs d :
  every_fetch_completes fetches (remote_count (enumeration scripts config)) ->
  querySelector_pre (JS.to_text (result (fst response))) = Some inner ->
  JS.truthy (success (fst response)) = true ->
  files (fst response) = Some fs ->
  let d0 := page (run fetches (readScripts scripts config d)) in
  let d' := compile this scripts config fetches (Answered (Some response)) d in
  injected d' = injected d ++ map (script_element this) fs /\
  diagnostic_rendered inner d0 d' /\
  status_container d'
  = option_map
      (fun c => c ++ match config with
                     | None => [missing_config_note]
                     | Some _ => []
                     end ++ [report_div inner]) (status_container d) /\
  status d' = option_map (fun _ => hidden_status (window_status d)) (status d) /\
  spinner d' = option_map (fun _ => "hidden") (spinner d).
Proof.
  intros Hcomplete Hq Hs Hf d0 d'; subst d0 d'; unfold compile.
  rewrite (callbacks_when_complete scripts config d fetches Hcomplete).
  destruct (page_parts_of_run scripts config d fetches)
    as (Hc0 & Hs0 & Hp0 & Hb0 & Hw0).
  set (d0 := page (run fetches (readScripts scripts config d))) in *.
  destruct (handler_page_with_pre this response inner d0 Hq)
    as (Hc & Hb & Hst & Hp & _).
  rewrite Hs, Hf in Hb, Hst.
  split; [|split; [|split; [|split]]].
  - unfold injected; rewrite Hb, !filter_app, scripts_are_scripts, Hb0.
    destruct (status_container d0); reflexivity.
  - unfold diagnostic_rendered; rewrite Hc, Hb.
    destruct (status_container d0); [reflexivity|].
    split; [reflexivity|]; eexists; reflexivity.
  - rewrite Hc, Hc0; destruct (status_container d); simpl;
      rewrite <- ?app_assoc; reflexivity.
  - rewrite Hst, Hs0, Hw0; reflexivity.
  - rewrite Hp, Hp0; reflexivity.
Qed.

Lemma cycle_of_a_successful_compilation_witness :
  let fetches := [(0, Loaded 200 "export {}")] in
  let d' := compile (H := Sample.host) Sample.compiler [Sample.remote_script] None
              fetches (Answered (Some Sample.compile_success)) Sample.doc in
  every_fetch_completes fetches
    (remote_count (enumeration [Sample.remote_script] None)) /\
  injected d' = [Script "text/javascript" "b()"; Script "text/plain" "{}"] /\
  status_container d'
  = Some [missing_config_note; report_div (ParsedPre "<pre>ok</pre>")].
Proof.
  assert (Hc : every_fetch_completes [(0, Loaded 200 "export {}")]
                 (remote_count (enumeration [Sample.remote_script] None))).
  { split; [apply Permutation_refl | repeat constructor; discriminate]. }
  split; [exact Hc|].
  destruct (cycle_of_a_successful_compilation Sample.host Sample.compiler
              [Sample.remote_script] None _ Sample.compile_success
              (ParsedPre "<pre>ok</pre>") _ Sample.doc Hc eq_refl eq_refl eq_refl)
    as (Hinj & _ & Hcont & _).
  split; [exact Hinj | exact Hcont].
Defined.

(** ** What the response handler never does *)

(** X9.  When a response gives the handler nothing to inject (it does not
    parse, its report has no [pre] element, [success] is not true, or
    [files] is absent or empty), the handler removes and reorders
    nothing: the status container keeps its nodes and gets exactly the
    report of the response, if it has one, at its end; the body keeps its
    nodes and gets exactly that report in front when the page has no
    status container; the global [status] is unchanged; a page without
    status element or without spinner still has none; no script is
    added. *)
Theorem handler_without_injection_only_adds_the_report
    (host : HostAPI) this parsed d :
  files_to_inject parsed = [] ->
  let d' := exec (compile_onload this parsed) d in
  status_container d' = option_map (fun c => c ++ report_of parsed) (status_container d) /\
  body d' = match status_container d with
            | Some _ => []
            | None => report_of parsed
            end ++ body d /\
  window_status d' = window_status d /\
  (status d' = None <-> status d = None) /\
  (spinner d' = None <-> spinner d = None) /\
  injected d' = injected d.
Proof.
  intros Hnone d'; subst d'.
  assert (Hparts :
    status_container (exec (compile_onload this parsed) d)
    = option_map (fun c => c ++ report_of parsed) (status_container d) /\
    body (exec (compile_onload this parsed) d)
    = match status_container d with
      | Some _ => []
      | None => report_of parsed
      end ++ body d /\
    window_status (exec (compile_onload this parsed) d) = window_status d /\
    (exists f, status (exec (compile_onload this parsed) d) = option_map f (status d)) /\
    spinner (exec (compile_onload this parsed) d)
    = option_map (fun _ => "hidden") (spinner d)).
  { destruct (report_of parsed) as [|node rest] eqn:Hreport.
    - destruct (handler_page_generic this parsed d Hreport)
        as (Hc & Hb & Hs & Hp & Hw).
      rewrite Hc, Hb, Hs, Hp, Hw; repeat split; eauto.
      + destruct (status_container d); simpl; rewrite ?app_nil_r; reflexivity.
      + destruct (status_container d); reflexivity.
    - destruct parsed as [response|]; [|discriminate].
      simpl in Hreport, Hnone.
      destruct (querySelector_pre (JS.to_text (result (fst response))))
        as [inner|] eqn:Hq; [|discriminate].
      injection Hreport as <- <-.
      destruct (handler_page_with_pre this response inner d Hq)
        as (Hc & Hb & Hs & Hp & Hw).
      split; [exact Hc|]; split; [|split; [exact Hw|split; [eauto | exact Hp]]].
      assert (Hscripts :
        (if JS.truthy (success (fst response))
         then match files (fst response) with
              | Some fs => map (script_element this) fs
              | None => []
              end
         else []) = []).
      { destruct (files (fst response)) as [fs|];
          destruct (JS.truthy (success (fst response)));
          rewrite ?Hnone; reflexivity. }
      unfold Response in *; rewrite Hb, Hscripts, app_nil_r; reflexivity. }
  destruct Hparts as (Hc & Hb & Hw & (f & Hs) & Hp).
  repeat split; try assumption.
  - rewrite Hs; destruct (status d); simpl; [discriminate | reflexivity].
  - rewrite Hs; intros ->; reflexivity.
  - rewrite Hp; destruct (spinner d); simpl; [discriminate | reflexivity].
  - rewrite Hp; intros ->; reflexivity.
  - unfold injected; rewrite Hb, filter_app.
    assert (Hno : forall l, l = [] \/ (exists inner, l = [report_div inner]) ->
                  filter (fun node => match node with
                                      | Script _ _ => true
                                      | _ => false
                                      end) l = []).
    { intros l [-> | (inner & ->)]; reflexivity. }
    rewrite Hno; [reflexivity|].
    destruct (status_container d); [left; reflexivity|].
    destruct parsed as [response|]; [|left; reflexivity].
    simpl; destruct (querySelector_pre (JS.to_text (result (fst response))));
      [right; eexists; reflexivity | left; reflexivity].
Qed.

Lemma handler_without_injection_only_adds_the_report_witness :
  let d' := exec (@compile_onload Sample.host Sample.compiler
                    (Some Sample.compile_failure)) Sample.doc in
  @files_to_inject Sample.host (Some Sample.compile_failure) = [] /\
  status_container d' = Some [report_div (ParsedPre "<pre>error</pre>")] /\
  body d' = [].
Proof.
  split; [reflexivity|].
  destruct (handler_without_injection_only_adds_the_report Sample.host
              Sample.compiler (Some Sample.compile_failure) Sample.doc eq_refl)
    as (Hc & Hb & _).
  split; [exact Hc | exact Hb].
Defined.

(** X10.  A response with a report and [success], but without [files]:
    [showOutput] renders the report, hides the status and the spinner,
    and then throws at the loop over the absent files; the handler
    catches it, so that in the end the report is still rendered, the
    status element, where the page has one, reads
    [A server error occurred.] with the class of errors, the body has got
    no other node and nothing is injected. *)
Theorem success_without_files_is_a_server_error
    (host : HostAPI) this response inner d :
  querySelector_pre (JS.to_text (result (fst response))) = Some inner ->
  JS.truthy (success (fst response)) = true ->
  files (fst response) = None ->
  let d' := exec (compile_onload this (Some response)) d in
  (exists thrown_at,
     showOutput this (fst response) (after_fault_check response d)
     = (Thrown "TypeError", thrown_at) /\
     diagnostic_rendered inner d thrown_at /\
     status thrown_at
     = option_map (fun _ => hidden_status (window_status d)) (status d) /\
     spinner thrown_at = option_map (fun _ => "hidden") (spinner d)) /\
  diagnostic_rendered inner d d' /\
  injected d' = injected d /\
  body d' = match status_container d with
            | Some _ => body d
            | None => report_div inner :: body d
            end /\
  status d' = option_map (fun _ => error_status "A server error occurred.") (status d) /\
  spinner d' = option_map (fun _ => "hidden") (spinner d).
Proof.
  intros Hq Hs Hf d'; subst d'.
  destruct (handler_page_with_pre this response inner d Hq)
    as (Hc & Hb & Hst & Hp & _).
  rewrite Hs, Hf in Hb, Hst; rewrite app_nil_r in Hb.
  split; [|split; [|split; [|split; [|split]]]].
  - eexists; split.
    + rewrite (showOutput_with_pre this _ inner _ Hq), Hs, Hf; reflexivity.
    + unfold diagnostic_rendered, after_fault_check, report_div, hidden_status.
      destruct (JS.truthy (error (snd response)));
        destruct d as [[?|] [?|] [?|] ? ?]; simpl; repeat split;
        try reflexivity; exists []; rewrite app_nil_r; reflexivity.
  - unfold diagnostic_rendered; rewrite Hc, Hb.
    destruct (status_container d); [reflexivity|].
    split; [reflexivity|]; exists []; rewrite app_nil_r; reflexivity.
  - unfold injected; rewrite Hb; destruct (status_container d); reflexivity.
  - rewrite Hb; destruct (status_container d); reflexivity.
  - exact Hst.
  - exact Hp.
Qed.

Lemma success_without_files_is_a_server_error_witness :
  let d' := exec (@compile_onload Sample.host Sample.compiler
                    (Some Sample.success_without_files)) Sample.doc in
  @querySelector_pre Sample.host "<pre>ok</pre>" = Some (ParsedPre "<pre>ok</pre>") /\
  status d' = Some (error_status "A server error occurred.") /\
  status_container d' = Some [report_div (ParsedPre "<pre>ok</pre>")].
Proof.
  split; [reflexivity|].
  destruct (success_without_files_is_a_server_error Sample.host Sample.compiler
              Sample.success_without_files (ParsedPre "<pre>ok</pre>") Sample.doc
              eq_refl eq_refl eq_refl) as (_ & Hrendered & _ & _ & Hstatus & _).
  split; [exact Hstatus | exact Hrendered].
Defined.

(** ** Types and names *)

Section TypesAndNames.

Lemma type_by_name_spec this file :
  (if js_test file then outputJsType this else outputOtherType this)
  = type_by_name this (name file).
Proof.
  unfold type_by_name.
  pose proof (js_test_spec file) as Hspec.
  destruct (js_test file).
  - destruct (proj1 Hspec eq_refl) as [He|Hl].
    + rewrite He; reflexivity.
    + rewrite Hl, orb_true_r; reflexivity.
  - destruct (spec_ends_with ".js" (name file)) eqn:He.
    + assert (Hf : false = true) by (apply Hspec; auto); discriminate.
    + destruct (Nat.eqb_spec (String.length (name file)) 2) as [Hl|Hl];
        [|reflexivity].
      assert (Hf : false = true) by (apply Hspec; auto); discriminate.
Qed.

Lemma length_append (a b : string) :
  String.length (String.append a b) = String.length a + String.length b.
Proof. induction a as [|c a IH]; simpl; [|rewrite IH]; reflexivity. Qed.

Lemma append_cancel_r (c : string) : forall a b : string,
  String.append a c = String.append b c -> a = b.
Proof.
  induction a as [|x a IH]; intros [|y b] Heq; simpl in *.
  - reflexivity.
  - apply (f_equal String.length) in Heq; simpl in Heq.
    rewrite length_append in Heq; lia.
  - apply (f_equal String.length) in Heq; simpl in Heq.
    rewrite length_append in Heq; lia.
  - injection Heq as -> Heq; f_equal; apply IH, Heq.
Qed.

Lemma number_text_inj k1 k2 :
  JS.number_text k1 = JS.number_text k2 -> k1 = k2.
Proof.
  unfold JS.number_text; intros Heq.
  apply (f_equal NilEmpty.uint_of_string) in Heq.
  rewrite !NilEmpty.usu in Heq.
  injection Heq as Heq; apply DecimalNat.Unsigned.to_uint_inj, Heq.
Qed.

Lemma contains_slash_nonempty s : contains "/" s = true -> s <> "".
Proof. intros Hc ->; discriminate. Qed.

End TypesAndNames.

(** X11.  The [script] element [addScript] appends comes after the
    scripts the body held; its text is the content of the file and its
    type is that of scripts when the name of the file ends in [.js] or has
    two characters, and the other type for every other name. *)
Theorem addScript_appends_by_name this file d :
  injected (addScript this file d)
  = injected d ++ [Script (type_by_name this (name file)) (content file)].
Proof.
  unfold injected, addScript; simpl.
  rewrite filter_app, type_by_name_spec; reflexivity.
Qed.

(** X12.  The name [readScripts] gives to a source fragment, for every
    location: the placeholder [script-<k>.ts] for the empty location; the
    final path segment with the [/] before it for a location that has a
    [/]; the location itself when it has none. *)
Theorem script_name_by_location k script :
  script_name k script
  = if String.eqb (src script) ""
    then String.append "script-" (String.append (JS.number_text k) ".ts")
    else String.append (if contains "/" (src script) then "/" else "")
                       (spec_final_segment (src script)).
Proof.
  destruct (script_name_cases k script) as [Hempty Hother].
  destruct (String.eqb_spec (src script) "") as [He|Hne].
  - apply Hempty, He.
  - rewrite (Hother Hne); apply derived_name_spec.
Qed.

(** X13.  The placeholder of a fragment without location is its own: it
    differs from the placeholder at any other position, and from the name
    of any fragment whose location has a [/]. *)
Theorem placeholders_do_not_collide k1 k2 script1 script2 :
  src script1 = "" ->
  k1 <> k2 ->
  src script2 = "" \/ contains "/" (src script2) = true ->
  script_name k1 script1 <> script_name k2 script2.
Proof.
  intros He1 Hk Hcases Heq.
  destruct (script_name_cases k1 script1) as [Hempty1 _].
  rewrite (Hempty1 He1) in Heq.
  destruct Hcases as [He2|Hslash].
  - destruct (script_name_cases k2 script2) as [Hempty2 _].
    rewrite (Hempty2 He2) in Heq.
    simpl in Heq; injection Heq as Heq.
    apply append_cancel_r, number_text_inj in Heq; contradiction.
  - destruct (script_name_cases k2 script2) as [_ Hother2].
    rewrite (Hother2 (contains_slash_nonempty _ Hslash)) in Heq.
    rewrite derived_name_spec, Hslash in Heq.
    simpl in Heq; discriminate.
Qed.

Lemma placeholders_do_not_collide_witness :
  src Sample.inline_script = "" /\ 3 <> 13 /\
  script_name 3 Sample.inline_script <> script_name 13 Sample.remote_script.
Proof.
  assert (Hk : 3 <> 13) by (intros Heq; discriminate Heq).
  split; [reflexivity|]; split; [exact Hk|].
  apply (placeholders_do_not_collide 3 13 Sample.inline_script Sample.remote_script
           eq_refl Hk).
  right; reflexivity.
Defined.

(** ** The static side *)

(** X14.  [Compiler.compile] before any [Compiler.configure] writes one
    error to the console and does nothing else: the page is untouched.
    After [configure], whatever was configured before, a cycle that
    succeeds injects the files with the two types of the latest options. *)
Theorem static_compile_uses_the_latest_options
    (host : HostAPI) options instance scripts config fetches response inner fs d :
  every_fetch_completes fetches (remote_count (enumeration scripts config)) ->
  querySelector_pre (JS.to_text (result (fst response))) = Some inner ->
  JS.truthy (success (fst response)) = true ->
  files (fst response) = Some fs ->
  static_compile None scripts config fetches (Answered (Some response)) d
  = (d, ["Tried to compile before confiuring!"]) /\
  snd (static_compile (configure options instance) scripts config fetches
         (Answered (Some response)) d) = [] /\
  injected (fst (static_compile (configure options instance) scripts config fetches
                   (Answered (Some response)) d))
  = injected d
    ++ map (fun file =>
              Script (if spec_ends_with ".js" (name file)
                         || Nat.eqb (String.length (name file)) 2
                      then Configuration.outputJsType options
                      else Configuration.outputOtherType options)
                     (content file)) fs.
Proof.
  intros Hcomplete Hq Hs Hf.
  split; [reflexivity|]; split; [reflexivity|].
  unfold static_compile, configure, compile; simpl.
  rewrite (callbacks_when_complete scripts config d fetches Hcomplete).
  rewrite page_of_run, compile_onload_parsed, Hq, Hs, Hf; simpl.
  rewrite injected_inject_all, injected_hideSpinner, injected_hideStatus,
    injected_place_div.
  assert (Hinj : forall d0, injected (after_fault_check response d0) = injected d0).
  { intros d0; unfold after_fault_check;
      destruct (JS.truthy (error (snd response)));
      rewrite ?injected_hideSpinner, ?injected_setError; reflexivity. }
  rewrite Hinj; destruct config; rewrite ?injected_addNote; f_equal;
    apply map_ext; intros file; unfold script_element;
    rewrite type_by_name_spec; reflexivity.
Qed.

Lemma static_compile_uses_the_latest_options_witness :
  let fetches := [(0, Loaded 200 "export {}")] in
  every_fetch_completes fetches
    (remote_count (enumeration [Sample.remote_script] None)) /\
  injected (fst (static_compile (H := Sample.host)
                   (configure sample_options (Some Sample.compiler))
                   [Sample.remote_script] None fetches
                   (Answered (Some Sample.compile_success)) Sample.doc))
  = [Script "module" "b()"; Script "text/plain" "{}"].
Proof.
  assert (Hc : every_fetch_completes [(0, Loaded 200 "export {}")]
                 (remote_count (enumeration [Sample.remote_script] None))).
  { split; [apply Permutation_refl | repeat constructor; discriminate]. }
  split; [exact Hc|].
  destruct (static_compile_uses_the_latest_options Sample.host sample_options
              (Some Sample.compiler) [Sample.remote_script] None _
              Sample.compile_success (ParsedPre "<pre>ok</pre>") _ Sample.doc
              Hc eq_refl eq_refl eq_refl) as (_ & _ & Hinj).
  exact Hinj.
Defined.

(** ** The status helpers *)

(** X15.  What the helpers that write the status leave, on any page: the
    element, where the page has one, holds the text given and the class
    [header error] after [setError], [header] after [setStatus], and the
    text of the global [status] with the class [header hidden] after
    [hideStatus]; a page without the element is left alone.  So of any
    two of them the later one wins, whichever the earlier was.
    [hideSpinner] commutes with all three and need not be repeated. *)
Theorem the_later_status_wins text1 text2 d :
  (status (setError text2 d) = option_map (fun _ => error_status text2) (status d) /\
   status (setStatus text2 d) = option_map (fun _ => plain_status text2) (status d) /\
   status (hideStatus d)
   = option_map (fun _ => hidden_status (window_status d)) (status d) /\
   spinner (hideSpinner d) = option_map (fun _ => "hidden") (spinner d)) /\
  (setError text2 (setError text1 d) = setError text2 d /\
   setError text2 (setStatus text1 d) = setError text2 d /\
   setError text2 (hideStatus d) = setError text2 d /\
   setStatus text2 (setError text1 d) = setStatus text2 d /\
   setStatus text2 (setStatus text1 d) = setStatus text2 d /\
   setStatus text2 (hideStatus d) = setStatus text2 d /\
   hideStatus (setError text1 d) = hideStatus d /\
   hideStatus (setStatus text1 d) = hideStatus d /\
   hideStatus (hideStatus d) = hideStatus d) /\
  (hideSpinner (setError text1 d) = setError text1 (hideSpinner d) /\
   hideSpinner (setStatus text1 d) = setStatus text1 (hideSpinner d) /\
   hideSpinner (hideStatus d) = hideStatus (hideSpinner d) /\
   hideSpinner (hideSpinner d) = hideSpinner d).
Proof.
  destruct d as [[?|] [?|] ? ? ?]; repeat split; reflexivity.
Qed.
